(** * The whisper proxy WebSocket bridge

    A shallow embedding of [services/openai-whisper-proxy/main.py]: the
    per-connection handler [ws_proxy] and its inner closure [flush_audio].

    Conventions of the embedding.
    - Python values read from an inbound JSON object are kept as [json]
      values; [None] is [JNull]; truthiness and [==] follow Python.
    - The event-loop clock, [CHUNK_SECONDS] and [offset_sec] are Python
      floats; they are represented by the rationals they denote (every finite
      double is a rational; with the default chunk length all offsets are
      small integers, where double addition is exact).  For other chunk
      lengths double addition rounds, so what is stated of the offset
      after several flushes is stated on the additions as the code nests
      them, one [+ CHUNK_SECONDS] per flush, and not on a product.
    - The collaborators (Redis [xadd], the transcription backend, [uuid4],
      [utcnow], the event-loop clock, the [wave] writer) are a [World] of
      oracles indexed by the number of calls made so far; every call is
      recorded in a trace.
    - An [await]ed call either returns or raises; a raised exception
      propagates as [Raise] through the monad [M] until a handler of the
      source catches it. *)

From Stdlib Require Import List String Ascii Bool Arith ZArith QArith Lia Lqa.
From Stdlib.Strings Require Import Byte.
From Stdlib Require Import DecimalString.
Import ListNotations.

Set Warnings "-register-all".

Local Open Scope string_scope.
Local Open Scope Z_scope.

(** ** JSON values as produced by [json.loads] *)

(** A dict is the list of its items, keys pairwise distinct, in insertion
    order.  The non-standard literals [NaN] and [Infinity] are not
    represented. *)
Inductive json : Type :=
| JNull
| JBool (b : bool)
| JInt (z : Z)
| JFloat (q : Q)
| JStr (s : string)
| JArr (l : list json)
| JObj (kv : list (string * json)).

(** [bool(v)] *)
Definition truthy (v : json) : bool :=
  match v with
  | JNull => false
  | JBool b => b
  | JInt z => negb (z =? 0)
  | JFloat q => negb (Qnum q =? 0)
  | JStr s => negb (s =? "")%string
  | JArr l => match l with [] => false | _ => true end
  | JObj kv => match kv with [] => false | _ => true end
  end.

(** [a or b] *)
Definition py_or (a b : json) : json := if truthy a then a else b.

(** [d.get(k)] on the items of a dict. *)
Fixpoint assoc (k : string) (kv : list (string * json)) : option json :=
  match kv with
  | [] => None
  | (k', v) :: rest => if (k =? k')%string then Some v else assoc k rest
  end.

(** [k in d] *)
Definition has_key (k : string) (kv : list (string * json)) : bool :=
  match assoc k kv with Some _ => true | None => false end.

(** [d.get(k)], [None] when the key is absent. *)
Definition dict_get (k : string) (kv : list (string * json)) : json :=
  match assoc k kv with Some v => v | None => JNull end.

(** [d.get(k, default)] *)
Definition dict_get_default (k : string) (dflt : json) (kv : list (string * json)) : json :=
  match assoc k kv with Some v => v | None => dflt end.

(** The number a value denotes, for Python's mixed comparison of [bool],
    [int] and [float]. *)
Definition num_of (v : json) : option Q :=
  match v with
  | JBool b => Some (if b then 1%Q else 0%Q)
  | JInt z => Some (inject_Z z)
  | JFloat q => Some q
  | _ => None
  end.

(** [a == b] *)
Fixpoint py_eq (a b : json) {struct a} : bool :=
  match a with
  | JNull => match b with JNull => true | _ => false end
  | JBool _ | JInt _ | JFloat _ =>
      match num_of a, num_of b with
      | Some x, Some y => Qeq_bool x y
      | _, _ => false
      end
  | JStr s => match b with JStr t => (s =? t)%string | _ => false end
  | JArr l =>
      match b with
      | JArr m =>
          (fix elems (l m : list json) {struct l} : bool :=
             match l, m with
             | [], [] => true
             | x :: l', y :: m' => py_eq x y && elems l' m'
             | _, _ => false
             end) l m
      | _ => false
      end
  | JObj kv =>
      match b with
      | JObj kw =>
          (List.length kv =? List.length kw)%nat &&
          (fix items (kv : list (string * json)) {struct kv} : bool :=
             match kv with
             | [] => true
             | (k, v) :: kv' =>
                 match assoc k kw with
                 | Some w => py_eq v w
                 | None => false
                 end && items kv'
             end) kv
      | _ => false
      end
  end.

(** ** Fixed three-decimal rendering, [f"{x:.3f}"] *)

(** The integer nearest to [1000 * |q|], ties to even: the float is
    converted from its exact value. *)
Definition round_milli (q : Q) : Z :=
  let a := Z.abs (Qnum q) * 1000 in
  let d := Zpos (Qden q) in
  let fl := a / d in
  let r := a mod d in
  if 2 * r <? d then fl
  else if d <? 2 * r then fl + 1
  else if Z.even fl then fl else fl + 1.

Definition digit (n : Z) : string :=
  String (ascii_of_nat (48 + Z.to_nat n)) EmptyString.

Definition dec_of_Z (n : Z) : string :=
  NilZero.string_of_uint (N.to_uint (Z.to_N n)).

Definition fmt3 (q : Q) : string :=
  let n := round_milli q in
  let frac := n mod 1000 in
  (if Qnum q <? 0 then "-" else "") ++
  dec_of_Z (n / 1000) ++ "." ++
  digit (frac / 100) ++ digit ((frac / 10) mod 10) ++ digit (frac mod 10).

(** ** The environment of one connection *)

Record World : Type := {
  redis : bool;                                 (* the module-level handle is not [None] *)
  CHUNK_SECONDS : Q;
  MODEL : string;
  STREAM_NAME : string;
  loop_time : nat -> Q;                        (* [asyncio.get_event_loop().time()] *)
  xadd_ok : nat -> bool;                       (* [false]: [redis.xadd] raises *)
  transcribe : nat -> list byte -> option string;  (* [None]: the backend call raises *)
  uuid4 : nat -> string;
  utcnow_iso : nat -> string;
  wave_write : list byte -> list byte          (* the [wave] module, 1 channel, 16 bit, 16 kHz *)
}.

Inductive exn : Type :=
| BackendError
| RedisError
| AttributeError
| TypeError.

(** What the handler does to the outside, in order.  [EvFlush] marks an
    entry into [flush_audio] with its audio argument; it is bookkeeping of
    the model, the other events are calls the source makes. *)
Inductive Event : Type :=
| EvFlush (audio : list byte)
| EvXadd (stream : string) (payload : json) (ok : bool)
| EvTranscribe (model : string) (wav : list byte) (resp : option string)
| EvLogText (current_speaker : json) (text : string)
| EvClose.

(** The locals of [ws_proxy], followed by the call counters and the trace. *)
Record State : Type := mkState {
  buf : list byte;
  speaker : json;
  last_send : Q;
  token : json;
  platform : json;
  meeting_id : json;
  uid : json;
  sent_session_start : bool;
  offset_sec : Q;
  n_clock : nat;
  n_xadd : nat;
  n_transcribe : nat;
  n_uuid : nat;
  n_utcnow : nat;
  trace : list Event
}.

Definition set_buf (b : list byte) (s : State) : State :=
  mkState b (speaker s) (last_send s) (token s) (platform s) (meeting_id s) (uid s)
    (sent_session_start s) (offset_sec s)
    (n_clock s) (n_xadd s) (n_transcribe s) (n_uuid s) (n_utcnow s) (trace s).

Definition set_speaker (v : json) (s : State) : State :=
  mkState (buf s) v (last_send s) (token s) (platform s) (meeting_id s) (uid s)
    (sent_session_start s) (offset_sec s)
    (n_clock s) (n_xadd s) (n_transcribe s) (n_uuid s) (n_utcnow s) (trace s).

Definition set_last_send (t : Q) (s : State) : State :=
  mkState (buf s) (speaker s) t (token s) (platform s) (meeting_id s) (uid s)
    (sent_session_start s) (offset_sec s)
    (n_clock s) (n_xadd s) (n_transcribe s) (n_uuid s) (n_utcnow s) (trace s).

Definition set_identity (tk pf mid u : json) (s : State) : State :=
  mkState (buf s) (speaker s) (last_send s) tk pf mid u
    (sent_session_start s) (offset_sec s)
    (n_clock s) (n_xadd s) (n_transcribe s) (n_uuid s) (n_utcnow s) (trace s).

Definition set_sent_session_start (b : bool) (s : State) : State :=
  mkState (buf s) (speaker s) (last_send s) (token s) (platform s) (meeting_id s) (uid s)
    b (offset_sec s)
    (n_clock s) (n_xadd s) (n_transcribe s) (n_uuid s) (n_utcnow s) (trace s).

Definition set_offset_sec (o : Q) (s : State) : State :=
  mkState (buf s) (speaker s) (last_send s) (token s) (platform s) (meeting_id s) (uid s)
    (sent_session_start s) o
    (n_clock s) (n_xadd s) (n_transcribe s) (n_uuid s) (n_utcnow s) (trace s).

Definition tick_clock (s : State) : State :=
  mkState (buf s) (speaker s) (last_send s) (token s) (platform s) (meeting_id s) (uid s)
    (sent_session_start s) (offset_sec s)
    (S (n_clock s)) (n_xadd s) (n_transcribe s) (n_uuid s) (n_utcnow s) (trace s).

Definition tick_xadd (s : State) : State :=
  mkState (buf s) (speaker s) (last_send s) (token s) (platform s) (meeting_id s) (uid s)
    (sent_session_start s) (offset_sec s)
    (n_clock s) (S (n_xadd s)) (n_transcribe s) (n_uuid s) (n_utcnow s) (trace s).

Definition tick_transcribe (s : State) : State :=
  mkState (buf s) (speaker s) (last_send s) (token s) (platform s) (meeting_id s) (uid s)
    (sent_session_start s) (offset_sec s)
    (n_clock s) (n_xadd s) (S (n_transcribe s)) (n_uuid s) (n_utcnow s) (trace s).

Definition tick_uuid (s : State) : State :=
  mkState (buf s) (speaker s) (last_send s) (token s) (platform s) (meeting_id s) (uid s)
    (sent_session_start s) (offset_sec s)
    (n_clock s) (n_xadd s) (n_transcribe s) (S (n_uuid s)) (n_utcnow s) (trace s).

Definition tick_utcnow (s : State) : State :=
  mkState (buf s) (speaker s) (last_send s) (token s) (platform s) (meeting_id s) (uid s)
    (sent_session_start s) (offset_sec s)
    (n_clock s) (n_xadd s) (n_transcribe s) (n_uuid s) (S (n_utcnow s)) (trace s).

Definition emit (e : Event) (s : State) : State :=
  mkState (buf s) (speaker s) (last_send s) (token s) (platform s) (meeting_id s) (uid s)
    (sent_session_start s) (offset_sec s)
    (n_clock s) (n_xadd s) (n_transcribe s) (n_uuid s) (n_utcnow s) (trace s ++ [e]).

(** ** State and exceptions *)

Inductive Res (A : Type) : Type :=
| Ok (a : A)
| Raise (e : exn).
Arguments Ok {A} a.
Arguments Raise {A} e.

Definition M (A : Type) : Type := State -> Res A * State.

Definition ret {A} (a : A) : M A := fun s => (Ok a, s).

Definition bind {A B} (m : M A) (k : A -> M B) : M B :=
  fun s =>
    match m s with
    | (Ok a, s') => k a s'
    | (Raise e, s') => (Raise e, s')
    end.

Definition raise {A} (e : exn) : M A := fun s => (Raise e, s).
Definition get : M State := fun s => (Ok s, s).
Definition modify (f : State -> State) : M unit := fun s => (Ok tt, f s).

Declare Scope monad_scope.
Delimit Scope monad_scope with monad.
Notation "x <- m ;; k" := (bind m (fun x => k))
  (at level 61, m at next level, right associativity) : monad_scope.
Notation "m ;; k" := (bind m (fun _ => k))
  (at level 61, right associativity) : monad_scope.
Local Open Scope monad_scope.

(** [try: body except Exception: handler] *)
Definition try_except {A} (body : M A) (handler : exn -> M A) : M A :=
  fun s =>
    match body s with
    | (Ok a, s') => (Ok a, s')
    | (Raise e, s') => handler e s'
    end.

(** ** Inbound messages *)

(** What [ws.receive()] returns.  A text frame is given by the outcome of
    [json.loads] on it: [None] when it raises [JSONDecodeError]. *)
Inductive message : Type :=
| Disconnect
| Receive (data_bytes : option (list byte)) (data_text : option (option json)).

Inductive ctl : Type :=
| Continue
| Break.

(** How far [ws_proxy] has got on the messages received so far. *)
Inductive outcome : Type :=
| Receiving                (* suspended in [ws.receive()] *)
| Returned                 (* the handler returned after [ws.close()] *)
| Raised (e : exn).        (* the handler ended with an exception *)

Definition nonempty {A} (l : list A) : bool :=
  match l with [] => false | _ => true end.

Section Proxy.

Variable W : World.

(** *** Calls to the collaborators *)

Definition clock : M Q :=
  fun s => (Ok (loop_time W (n_clock s)), tick_clock s).

Definition fresh_uuid : M string :=
  fun s => (Ok (uuid4 W (n_uuid s)), tick_uuid s).

Definition utcnow : M string :=
  fun s => (Ok (utcnow_iso W (n_utcnow s)), tick_utcnow s).

(** [await redis.xadd(STREAM_NAME, {"payload": json.dumps(payload)})]; the
    record is kept as the JSON value that is dumped. *)
Definition xadd (payload : json) : M unit :=
  fun s =>
    let ok := xadd_ok W (n_xadd s) in
    let s' := emit (EvXadd (STREAM_NAME W) payload ok) (tick_xadd s) in
    if ok then (Ok tt, s') else (Raise RedisError, s').

(** [await client.audio.transcriptions.create(model=MODEL, file=..)] and
    [resp.text] *)
Definition create_transcription (wav : list byte) : M string :=
  fun s =>
    let r := transcribe W (n_transcribe s) wav in
    let s' := emit (EvTranscribe (MODEL W) wav r) (tick_transcribe s) in
    match r with
    | Some text => (Ok text, s')
    | None => (Raise BackendError, s')
    end.

(** [uid or str(uuid.uuid4())] *)
Definition uid_or_fresh : M json :=
  s <- get ;;
  if truthy (uid s) then ret (uid s)
  else (u <- fresh_uuid ;; ret (JStr u)).

Definition session_start_payload (tk pf mid u : json) (ts : string) : json :=
  JObj [("type", JStr "session_start");
        ("token", tk);
        ("platform", pf);
        ("meeting_id", mid);
        ("uid", u);
        ("start_timestamp", JStr (ts ++ "Z"))].

Definition segment_of (text : string) (start_time end_time : Q) : json :=
  JObj [("text", JStr text);
        ("start", JStr (fmt3 start_time));
        ("end", JStr (fmt3 end_time));
        ("language", JNull)].

Definition transcription_payload (tk pf mid segment u : json) : json :=
  JObj [("type", JStr "transcription");
        ("token", tk);
        ("platform", pf);
        ("meeting_id", mid);
        ("segments", JArr [segment]);
        ("uid", u)].

(** *** [flush_audio] *)

Definition publish_session_start : M unit :=
  try_except
    (u <- uid_or_fresh ;;
     ts <- utcnow ;;
     s <- get ;;
     xadd (session_start_payload (token s) (platform s) (meeting_id s) u ts) ;;
     modify (set_sent_session_start true))
    (fun _ => ret tt).

Definition flush_audio (audio_bytes : list byte) (current_speaker : json)
    (nonlocal_offset : Q) : M Q :=
  modify (emit (EvFlush audio_bytes)) ;;
  s <- get ;;
  if negb (nonempty audio_bytes) || negb (truthy (token s))
     || negb (truthy (platform s)) || negb (truthy (meeting_id s))
  then ret nonlocal_offset
  else
    (if redis W && negb (sent_session_start s)
     then publish_session_start
     else ret tt) ;;
    text <- create_transcription (wave_write W audio_bytes) ;;
    modify (emit (EvLogText current_speaker text)) ;;
    let start_time := nonlocal_offset in
    let end_time := (nonlocal_offset + CHUNK_SECONDS W)%Q in
    let segment := segment_of text start_time end_time in
    u <- uid_or_fresh ;;
    s <- get ;;
    let payload :=
      transcription_payload (token s) (platform s) (meeting_id s) segment u in
    (if redis W
     then try_except (xadd payload) (fun _ => ret tt)
     else ret tt) ;;
    ret end_time.

(** *** The receive loop *)

(** The body of [try: obj = json.loads(data_text) ... except JSONDecodeError].
    On a value that is not a dict, [k in obj] raises [TypeError] (null,
    numbers, booleans) or succeeds (lists, strings), and then [obj.get]
    raises [AttributeError]; neither is caught. *)
Definition on_text (parsed : option json) : M unit :=
  match parsed with
  | None => ret tt
  | Some (JObj obj) =>
      if has_key "token" obj && has_key "platform" obj && has_key "meeting_id" obj
      then
        s <- get ;;
        modify (set_identity (dict_get "token" obj) (dict_get "platform" obj)
                  (dict_get "meeting_id" obj) (py_or (dict_get "uid" obj) (uid s)))
      else if py_eq (dict_get "type" obj) (JStr "speaker_activity")
      then
        match dict_get_default "payload" (JObj []) obj with
        | JObj payload_event =>
            let ev := dict_get "event_type" payload_event in
            let name_evt :=
              py_or (dict_get "participant_name" payload_event) (JStr "unknown") in
            s <- get ;;
            if py_eq ev (JStr "SPEAKER_START")
            then modify (set_speaker name_evt)
            else if py_eq ev (JStr "SPEAKER_END") && py_eq name_evt (speaker s)
            then modify (set_speaker (JStr "unknown"))
            else ret tt
        | _ => raise AttributeError
        end
      else ret tt
  | Some (JArr _) | Some (JStr _) => raise AttributeError
  | Some _ => raise TypeError
  end.

Definition on_bytes (data_bytes : list byte) : M unit :=
  s <- get ;;
  modify (set_buf (buf s ++ data_bytes)) ;;
  now <- clock ;;
  s <- get ;;
  if Qle_bool (CHUNK_SECONDS W) (now - last_send s)
  then
    o <- flush_audio (buf s) (speaker s) (offset_sec s) ;;
    modify (set_offset_sec o) ;;
    modify (set_buf []) ;;
    modify (set_last_send now)
  else ret tt.

Definition loop_body (msg : message) : M ctl :=
  match msg with
  | Disconnect => ret Break
  | Receive (Some data_bytes) _ => on_bytes data_bytes ;; ret Continue
  | Receive None (Some data_text) => on_text data_text ;; ret Continue
  | Receive None None => ret Continue
  end.

(** [while True] on the messages that have arrived: [None] when the loop
    is waiting for the next one, [Some tt] after [break]. *)
Fixpoint receive_loop (msgs : list message) : M (option unit) :=
  match msgs with
  | [] => ret None
  | msg :: rest =>
      c <- loop_body msg ;;
      match c with
      | Break => ret (Some tt)
      | Continue => receive_loop rest
      end
  end.

(** [finally: if buf: offset_sec = await flush_audio(..); await ws.close()].
    [EvClose] records that the call of [ws.close()] is reached; what the
    call does, an exception of its own included, is not represented. *)
Definition finally_block : M unit :=
  s <- get ;;
  (if nonempty (buf s)
   then o <- flush_audio (buf s) (speaker s) (offset_sec s) ;;
        modify (set_offset_sec o)
   else ret tt) ;;
  modify (emit EvClose).

(** The locals after [await ws.accept()]. *)
Definition accepted : State :=
  mkState [] (JStr "unknown") (loop_time W 0%nat) JNull JNull JNull JNull
    false 0%Q 1%nat 0%nat 0%nat 0%nat 0%nat [].

(** [try: <loop> finally: <flush the rest; close>] from a given state. *)
Definition serve (msgs : list message) (s0 : State) : outcome * State :=
  match receive_loop msgs s0 with
  | (Ok None, s) => (Receiving, s)
  | (Ok (Some _), s) =>
      match finally_block s with
      | (Ok _, s') => (Returned, s')
      | (Raise e', s') => (Raised e', s')
      end
  | (Raise e, s) =>
      match finally_block s with
      | (Ok _, s') => (Raised e, s')
      | (Raise e', s') => (Raised e', s')
      end
  end.

Definition ws_proxy (msgs : list message) : outcome * State :=
  serve msgs accepted.

End Proxy.

(** ** Observations on a trace *)

(** The records appended to the stream: the payloads of the [xadd] calls
    that returned. *)
Definition published (tr : list Event) : list json :=
  flat_map (fun e => match e with EvXadd _ p true => [p] | _ => [] end) tr.

(** The audio arguments of the calls of [flush_audio]. *)
Definition flushes (tr : list Event) : list (list byte) :=
  flat_map (fun e => match e with EvFlush a => [a] | _ => [] end) tr.

(** The audio handed to the backend, call by call. *)
Definition backend_calls (tr : list Event) : list (list byte) :=
  flat_map (fun e => match e with EvTranscribe _ wav _ => [wav] | _ => [] end) tr.

(** Calls to a collaborator, as opposed to the [EvFlush] marker and
    [ws.close()]. *)
Definition is_call (e : Event) : bool :=
  match e with
  | EvFlush _ | EvClose => false
  | _ => true
  end.

Definition field (k : string) (p : json) : json :=
  match p with
  | JObj kv => dict_get k kv
  | _ => JNull
  end.

Definition is_session_start (p : json) : bool :=
  py_eq (field "type" p) (JStr "session_start").

Definition is_transcription (p : json) : bool :=
  py_eq (field "type" p) (JStr "transcription").

Definition session_starts (tr : list Event) : list json :=
  filter is_session_start (published tr).

Definition transcriptions (tr : list Event) : list json :=
  filter is_transcription (published tr).

(** [token], [platform] and [meeting_id] are all truthy. *)
Definition identity_complete (s : State) : bool :=
  truthy (token s) && truthy (platform s) && truthy (meeting_id s).

(** The test of the receive loop on the clock value [now]. *)
Definition due (W : World) (s : State) (now : Q) : bool :=
  Qle_bool (CHUNK_SECONDS W) (now - last_send s).

(** ** Speaker activity and what is published *)







(** ** Relations between the state before and after a step *)

(** The number of session_start records on the stream agrees with the flag. *)
Definition announced_once (s : State) : Prop :=
  List.length (session_starts (trace s)) = if sent_session_start s then 1%nat else 0%nat.

(** Across a step the agreement is kept and a set flag stays set. *)
Definition flag_kept (s s' : State) : Prop :=
  (announced_once s -> announced_once s') /\
  (sent_session_start s = true -> sent_session_start s' = true).

(** The timeline offset does not go back. *)
Definition not_before (s s' : State) : Prop := (offset_sec s <= offset_sec s')%Q.

(** An identity message that leaves the session's uid [u] in place: it
    carries no truthy uid, or carries [u] itself. *)
Definition keeps_uid (u : json) (m : message) : Prop :=
  match m with
  | Receive None (Some (Some (JObj obj))) =>
      has_key "token" obj && has_key "platform" obj && has_key "meeting_id" obj = true ->
      py_or (dict_get "uid" obj) u = u
  | _ => True
  end.

(** From [s] to [s'] the uid stays [u] and every record published in
    between carries it. *)
Definition uid_carried (u : json) (s s' : State) : Prop :=
  uid s = u ->
  uid s' = u /\
  exists tl,
    trace s' = (trace s ++ tl)%list /\
    Forall (fun p => field "uid" p = u) (published tl).


(** The draws [ks] increase strictly and lie from [lo] up to, not
    including, [hi]. *)
Fixpoint ascending (lo : nat) (ks : list nat) (hi : nat) : Prop :=
  match ks with
  | [] => (lo <= hi)%nat
  | k :: rest => (lo <= k)%nat /\ ascending (S k) rest hi
  end.

(** From [s] to [s'] the uid is still the falsy [u], and the records
    published in between carry, in order, the values of distinct draws of
    [uuid4] made in between. *)
Definition uid_drawn (W : World) (u : json) (s s' : State) : Prop :=
  uid s = u ->
  uid s' = u /\
  exists tl ks,
    trace s' = (trace s ++ tl)%list /\
    map (field "uid") (published tl) = map (fun k => JStr (uuid4 W k)) ks /\
    ascending (n_uuid s) ks (n_uuid s').

(** ** Sample environments and messages *)

(** Default configuration; the clock advances by [step] seconds per
    reading; the backend and Redis fail at the given call numbers.  The
    [wave] header is left out of the sample payloads. *)
Definition demo_world (step : Z) (backend_fails_at xadd_fails_at : nat -> bool) : World :=
  {| redis := true;
     CHUNK_SECONDS := 5;
     MODEL := "whisper-1";
     STREAM_NAME := "transcription_segments";
     loop_time := fun n => inject_Z (Z.of_nat n * step);
     xadd_ok := fun n => negb (xadd_fails_at n);
     transcribe := fun n _ => if backend_fails_at n then None else Some "hello";
     uuid4 := fun n => "uuid-" ++ dec_of_Z (Z.of_nat n);
     utcnow_iso := fun _ => "2024-01-01T00:00:00";
     wave_write := fun pcm => pcm |}.

Definition never (n : nat) : bool := false.

Definition frame (d : list byte) : message := Receive (Some d) None.

Definition text_frame (j : json) : message := Receive None (Some (Some j)).

Definition identity_obj : list (string * json) :=
  [("token", JStr "t1"); ("platform", JStr "zoom"); ("meeting_id", JStr "m1")].


(** ** The claims that fail on the code, as stated *)

(** A due frame whose backend call fails: the connection goes on, the
    offset has advanced by the chunk length, nothing was published. *)
Definition backend_failure_tolerated (W : World) (s : State) (d : list byte) : Prop :=
  let r := loop_body W (frame d) s in
  fst r = Ok Continue /\
  (offset_sec (snd r) == offset_sec s + CHUNK_SECONDS W)%Q /\
  transcriptions (trace (snd r)) = transcriptions (trace s).

(** Audio received before the identity message reaches the backend in the
    first flush after it. *)
Definition early_audio_kept (W : World) (early : list byte) (idmsg : message)
    (late : list byte) : Prop :=
  let s1 := snd (ws_proxy W [frame early]) in
  let s3 := snd (ws_proxy W [frame early; idmsg; frame late]) in
  buf s1 = early /\
  backend_calls (trace s3) = [wave_write W (early ++ late)].

(** Every record published on the connection carries one and the same uid. *)
Definition single_uid (tr : list Event) : Prop :=
  exists u, Forall (fun p => field "uid" p = u) (published tr).

(** Sample worlds, states and inputs used for the concrete runs. *)
Definition calm : World := demo_world 5 never never.

Definition at_first (n : nat) : bool := (n =? 0)%nat.

Definition backend_down_once : World := demo_world 5 at_first never.

Definition redis_down_once : World := demo_world 5 never at_first.


Definition identified (W : World) : State :=
  snd (ws_proxy W [text_frame (JObj identity_obj)]).



Definition identity_with_uid : list (string * json) :=
  [("token", JStr "t1"); ("platform", JStr "zoom"); ("meeting_id", JStr "m1");
   ("uid", JStr "conn-7")].

(** ** Further observations on runs *)

(** The bytes of the binary frames the receive loop takes in: those that
    come before the first disconnect message. *)
Fixpoint received (msgs : list message) : list byte :=
  match msgs with
  | [] => []
  | Disconnect :: _ => []
  | Receive (Some d) _ :: rest => d ++ received rest
  | Receive None _ :: rest => received rest
  end.

(** All audio handed to [flush_audio] so far, in order. *)
Definition flushed (s : State) : list byte := List.concat (flushes (trace s)).

Definition is_object (j : json) : bool :=
  match j with
  | JObj _ => true
  | _ => false
  end.


(** The number of backend calls that returned a transcript. *)
Definition answered (tr : list Event) : nat :=
  List.length
    (filter (fun e => match e with EvTranscribe _ _ (Some _) => true | _ => false end) tr).

(** The payloads of all [xadd] calls, returned or not. *)
Definition attempted (tr : list Event) : list json :=
  flat_map (fun e => match e with EvXadd _ p _ => [p] | _ => [] end) tr.

(** The bounds of the single segment of a transcription payload. *)
Definition segment_start (p : json) : json :=
  match field "segments" p with
  | JArr (seg :: _) => field "start" seg
  | _ => JNull
  end.

Definition segment_end (p : json) : json :=
  match field "segments" p with
  | JArr (seg :: _) => field "end" seg
  | _ => JNull
  end.

(** Reading the payloads in order from the bound [from]: each one starts
    at the bound reached and moves it to its end; [None] when one does not
    start there. *)
Fixpoint abut (from : json) (ps : list json) : option json :=
  match ps with
  | [] => Some from
  | p :: rest =>
      if py_eq (segment_start p) from then abut (segment_end p) rest else None
  end.

(** The transcription payloads handed to [xadd], returned or not. *)
Definition transcription_attempts (tr : list Event) : list json :=
  filter is_transcription (attempted tr).

(** Across a step, the transcription payloads handed to Redis go on from
    the offset before to the offset after. *)
Definition timeline_tiled (s s' : State) : Prop :=
  exists ps,
    transcription_attempts (trace s') = (transcription_attempts (trace s) ++ ps)%list /\
    abut (JStr (fmt3 (offset_sec s))) ps = Some (JStr (fmt3 (offset_sec s'))).

(** Across a step, every new backend call is made on the converted audio
    of a new, non-empty flush, and there is at most one per flush. *)
Definition backend_fed_by_flushes (W : World) (s s' : State) : Prop :=
  exists tl,
    trace s' = (trace s ++ tl)%list /\
    (List.length (backend_calls tl) <= List.length (flushes tl))%nat /\
    Forall (fun wav => exists a, In a (flushes tl) /\ a <> [] /\ wav = wave_write W a)
      (backend_calls tl).

(** Across a step, nothing was handed to Redis and the flag is as before. *)
Definition redis_untouched (s s' : State) : Prop :=
  n_xadd s' = n_xadd s /\ attempted (trace s') = attempted (trace s) /\
  sent_session_start s' = sent_session_start s.

(** [end_time = nonlocal_offset + CHUNK_SECONDS], the one operation made
    on the offset. *)
Definition add_chunk (W : World) (o : Q) : Q := (o + CHUNK_SECONDS W)%Q.

(** Across a step, [CHUNK_SECONDS] is added to the offset once for each
    backend call that returned. *)
Definition timeline_counts (W : World) (s s' : State) : Prop :=
  exists k,
    answered (trace s') = (answered (trace s) + k)%nat /\
    offset_sec s' = Nat.iter k (add_chunk W) (offset_sec s).

(** Further sample inputs. *)
Definition no_redis : World :=
  {| redis := false;
     CHUNK_SECONDS := 5;
     MODEL := "whisper-1";
     STREAM_NAME := "transcription_segments";
     loop_time := fun n => inject_Z (Z.of_nat n * 5);
     xadd_ok := fun _ => true;
     transcribe := fun _ _ => Some "hello";
     uuid4 := fun n => "uuid-" ++ dec_of_Z (Z.of_nat n);
     utcnow_iso := fun _ => "2024-01-01T00:00:00";
     wave_write := fun pcm => pcm |}.

Definition three_messages : list message :=
  [frame [x01; x02]; text_frame (JObj identity_obj); frame [x03; x04]].

Definition bad_payload_obj : list (string * json) :=
  [("type", JStr "speaker_activity"); ("payload", JStr "bob")].


(** * The standalone Whisper server

    A shallow embedding of [services/openai-whisper/server.py]: the methods
    [transcribe_audio] and [handle_client] of [OpenAIWhisperServer].  The
    clock, the temporary-file directory, the OpenAI client, Redis and the
    client's socket are oracles indexed by the number of calls made, and
    every call is recorded.  [start_server] awaits [init_redis] before it
    serves, so [redis_client] is set whenever [handle_client] runs.  Opening
    and unlinking a temporary file that exists are taken to succeed. *)
Module OpenAIWhisperServer.

(** A [str], by code points. *)
Definition ustr : Type := list N.

(** The characters [str.strip()] removes: those for which [str.isspace]
    holds. *)
Definition is_space (c : N) : bool :=
  ((9 <=? c) && (c <=? 13) || (28 <=? c) && (c <=? 32)
   || (c =? 133) || (c =? 160) || (c =? 5760)
   || (8192 <=? c) && (c <=? 8202)
   || (c =? 8232) || (c =? 8233) || (c =? 8239) || (c =? 8287) || (c =? 12288))%N.

Fixpoint lstrip (t : ustr) : ustr :=
  match t with
  | [] => []
  | c :: t' => if is_space c then lstrip t' else t
  end.

(** [t.strip()] *)
Definition strip (t : ustr) : ustr := rev (lstrip (rev (lstrip t))).

(** [str(int(x))]: [int] truncates towards zero. *)
Definition int_str (x : Q) : string :=
  let z := Z.quot (Qnum x) (Zpos (Qden x)) in
  if z <? 0 then "-" ++ dec_of_Z (- z) else dec_of_Z z.

(** The fields of the stream entry and of the reply to the client; the
    reply is kept as the value that [json.dumps] encodes. *)
Record stream_data : Type := {
  sd_text : ustr;
  sd_timestamp : Q;
  sd_client_id : string;
  sd_language : string;
  sd_confidence : Q
}.

Record response : Type := {
  rs_text : ustr;
  rs_timestamp : Q
}.

Record Env : Type := {
  model : string;                                   (* [self.model] *)
  time_time : nat -> Q;                             (* [time.time()] *)
  tmp_ok : nat -> bool;                             (* [false]: creating the file raises *)
  whisper : nat -> list byte -> option ustr;        (* [None]: the API call raises *)
  redis_ok : nat -> bool;                           (* [false]: [xadd] raises *)
  send_ok : nat -> bool                             (* [false]: [ConnectionClosed] *)
}.

Inductive error : Type :=
| OSError
| APIError
| RedisFailure
| ConnectionClosed.

Inductive Call : Type :=
| TempFile (path : nat) (data : list byte) (ok : bool)
| Create (model : string) (path : nat) (data : list byte) (resp : option ustr)
| Unlink (path : nat)
| Xadd (stream : string) (fields : stream_data) (ok : bool)
| Send (payload : response) (ok : bool).

(** The temporary files that exist, the call counters and the calls made. *)
Record Sys : Type := mkSys {
  files : list (nat * list byte);
  n_time : nat;
  n_tmp : nat;
  n_create : nat;
  n_xadd : nat;
  n_send : nat;
  calls : list Call
}.

Inductive Out (A : Type) : Type :=
| Done (a : A)
| Fail (e : error).
Arguments Done {A} a.
Arguments Fail {A} e.

Definition SM (A : Type) : Type := Sys -> Out A * Sys.

Definition ret {A} (a : A) : SM A := fun s => (Done a, s).

Definition bind {A B} (m : SM A) (k : A -> SM B) : SM B :=
  fun s =>
    match m s with
    | (Done a, s') => k a s'
    | (Fail e, s') => (Fail e, s')
    end.

(** [try: body except Exception: handler] *)
Definition try_except {A} (body : SM A) (handler : error -> SM A) : SM A :=
  fun s =>
    match body s with
    | (Done a, s') => (Done a, s')
    | (Fail e, s') => handler e s'
    end.

Declare Scope server_scope.
Notation "x <- m ;; k" := (bind m (fun x => k))
  (at level 61, m at next level, right associativity) : server_scope.
Notation "m ;; k" := (bind m (fun _ => k))
  (at level 61, right associativity) : server_scope.
Local Open Scope server_scope.

Inductive message : Type :=
| Binary (data : list byte)
| Text (parsed : option json).

Fixpoint lookup (path : nat) (fs : list (nat * list byte)) : option (list byte) :=
  match fs with
  | [] => None
  | (p, d) :: rest => if (p =? path)%nat then Some d else lookup path rest
  end.

Definition remove_file (path : nat) (fs : list (nat * list byte)) : list (nat * list byte) :=
  filter (fun f => negb (fst f =? path)%nat) fs.

Section Server.

Variable W : Env.

Definition time : SM Q :=
  fun s =>
    (Done (time_time W (n_time s)),
     mkSys (files s) (S (n_time s)) (n_tmp s) (n_create s) (n_xadd s) (n_send s) (calls s)).

(** [with tempfile.NamedTemporaryFile(suffix='.wav', delete=False) as f:
    f.write(audio_data)]; the path is the number of the file.  Creating
    and writing are one step that succeeds or fails as a whole: a write
    that fails after the file was created, which leaves that file behind,
    is not told apart from a file that could not be created. *)
Definition named_temporary_file (audio_data : list byte) : SM nat :=
  fun s =>
    let path := n_tmp s in
    let ok := tmp_ok W path in
    if ok
    then (Done path,
          mkSys (files s ++ [(path, audio_data)]) (n_time s) (S (n_tmp s)) (n_create s)
            (n_xadd s) (n_send s) (calls s ++ [TempFile path audio_data true]))
    else (Fail OSError,
          mkSys (files s) (n_time s) (S (n_tmp s)) (n_create s)
            (n_xadd s) (n_send s) (calls s ++ [TempFile path audio_data false])).

(** [with open(path, 'rb') as audio_file:
    self.openai_client.audio.transcriptions.create(model=self.model, ..)] *)
Definition transcriptions_create (path : nat) : SM ustr :=
  fun s =>
    match lookup path (files s) with
    | None => (Fail OSError, s)
    | Some data =>
        let r := whisper W (n_create s) data in
        let s' := mkSys (files s) (n_time s) (n_tmp s) (S (n_create s)) (n_xadd s)
                    (n_send s) (calls s ++ [Create (model W) path data r]) in
        match r with
        | Some transcript => (Done transcript, s')
        | None => (Fail APIError, s')
        end
    end.

Definition os_unlink (path : nat) : SM unit :=
  fun s =>
    (Done tt,
     mkSys (remove_file path (files s)) (n_time s) (n_tmp s) (n_create s) (n_xadd s)
       (n_send s) (calls s ++ [Unlink path])).

Definition xadd (stream : string) (fields : stream_data) : SM unit :=
  fun s =>
    let ok := redis_ok W (n_xadd s) in
    let s' := mkSys (files s) (n_time s) (n_tmp s) (n_create s) (S (n_xadd s))
                (n_send s) (calls s ++ [Xadd stream fields ok]) in
    if ok then (Done tt, s') else (Fail RedisFailure, s').

Definition send (payload : response) : SM unit :=
  fun s =>
    let ok := send_ok W (n_send s) in
    let s' := mkSys (files s) (n_time s) (n_tmp s) (n_create s) (n_xadd s)
                (S (n_send s)) (calls s ++ [Send payload ok]) in
    if ok then (Done tt, s') else (Fail ConnectionClosed, s').

Definition transcribe_audio (audio_data : list byte) : SM ustr :=
  try_except
    (temp_file_path <- named_temporary_file audio_data ;;
     transcript <- transcriptions_create temp_file_path ;;
     os_unlink temp_file_path ;;
     ret transcript)
    (fun _ => ret []).

(** The body of [async for message in websocket]. *)
Definition on_message (client_id : string) (msg : message) : SM unit :=
  match msg with
  | Binary data =>
      transcript <- transcribe_audio data ;;
      if nonempty (strip transcript)
      then
        ts <- time ;;
        xadd "transcription_segments"
          {| sd_text := transcript;
             sd_timestamp := ts;
             sd_client_id := client_id;
             sd_language := "auto";
             sd_confidence := 1 |} ;;
        ts' <- time ;;
        send {| rs_text := transcript; rs_timestamp := ts' |}
      else ret tt
  | Text _ => ret tt
  end.

Fixpoint each_message (client_id : string) (msgs : list message) : SM unit :=
  match msgs with
  | [] => ret tt
  | msg :: rest => on_message client_id msg ;; each_message client_id rest
  end.

(** [handle_client] on the messages the connection delivers before it
    closes. *)
Definition handle_client (msgs : list message) : SM unit :=
  t <- time ;;
  let client_id := "client_" ++ int_str t in
  try_except (each_message client_id msgs) (fun _ => ret tt).

End Server.

(** The process before any client has connected. *)
Definition started : Sys := mkSys [] 0 0 0 0 0 [].

(** *** Observations *)

Definition appended (cs : list Call) : list stream_data :=
  flat_map (fun c => match c with Xadd _ f true => [f] | _ => [] end) cs.

Definition xadd_attempts (cs : list Call) : list stream_data :=
  flat_map (fun c => match c with Xadd _ f _ => [f] | _ => [] end) cs.

Definition replies (cs : list Call) : list response :=
  flat_map (fun c => match c with Send r _ => [r] | _ => [] end) cs.

(** The paths of the files whose transcription call raised. *)
Definition failed_paths (cs : list Call) : list nat :=
  flat_map (fun c => match c with Create _ p _ None => [p] | _ => [] end) cs.

(** Every file that exists was numbered before the next one to come. *)
Definition paths_fresh (s : Sys) : Prop :=
  Forall (fun f => (fst f < n_tmp s)%nat) (files s).

End OpenAIWhisperServer.

Module ServerRuns.
Import OpenAIWhisperServer.

(** What every entry handed to the stream looks like. *)
Definition record_ok (client_id : string) (f : stream_data) : Prop :=
  strip (sd_text f) <> [] /\ sd_client_id f = client_id /\
  sd_language f = "auto" /\ sd_confidence f = 1%Q.

(** Across a step of the server: the numbering of the files stays fresh,
    the files left behind are those of the calls that raised, every reply
    repeats an appended entry, and every entry is well formed. *)
Definition served (client_id : string) (s s' : Sys) : Prop :=
  paths_fresh s ->
  paths_fresh s' /\
  exists tl,
    calls s' = (calls s ++ tl)%list /\
    map fst (files s') = (map fst (files s) ++ failed_paths tl)%list /\
    map rs_text (replies tl) = map sd_text (appended tl) /\
    Forall (record_ok client_id) (xadd_attempts tl).

(** Sample environment: the API rejects the audio of the given calls and
    otherwise answers "hi"; Redis rejects the given calls. *)
Definition demo_env (api_fails_at redis_fails_at : nat -> bool) : Env :=
  {| model := "whisper-1";
     time_time := fun n => inject_Z (1700000000 + Z.of_nat n);
     tmp_ok := fun _ => true;
     whisper := fun n _ => if api_fails_at n then None else Some [104%N; 105%N];
     redis_ok := fun n => negb (redis_fails_at n);
     send_ok := fun _ => true |}.

End ServerRuns.

(** * Proofs *)

(** ** Proof support *)
Ltac unfold_prims :=
  unfold on_bytes, finally_block, flush_audio, publish_session_start,
    uid_or_fresh, xadd, create_transcription, clock, fresh_uuid, utcnow,
    try_except, bind, ret, get, modify, raise in *.

Ltac case_if :=
  match goal with
  | |- context [if ?c then _ else _] => destruct c eqn:?
  | |- context [match ?c with Some _ => _ | None => _ end] => destruct c eqn:?
  end.

Lemma py_eq_str v t : py_eq v (JStr t) = true -> v = JStr t.
Proof.
  destruct v as [ | b | z | q | s | l | kv]; simpl; try discriminate.
  intros H. apply String.eqb_eq in H. now subst.
Qed.

Lemma published_app tr1 tr2 : published (tr1 ++ tr2) = (published tr1 ++ published tr2)%list.
Proof. unfold published. apply flat_map_app. Qed.

Lemma flushes_app tr1 tr2 : flushes (tr1 ++ tr2) = (flushes tr1 ++ flushes tr2)%list.
Proof. unfold flushes. apply flat_map_app. Qed.

Lemma nonempty_true {A} (l : list A) : l <> [] -> nonempty l = true.
Proof. destruct l; [congruence | reflexivity]. Qed.

Lemma identity_complete_split s :
  identity_complete s = true ->
  truthy (token s) = true /\ truthy (platform s) = true /\ truthy (meeting_id s) = true.
Proof.
  unfold identity_complete. intros H.
  apply andb_true_iff in H as [H H3]. apply andb_true_iff in H as [H1 H2]. auto.
Qed.

Lemma identity_incomplete_noop (s : State) (a : list byte) :
  identity_complete s = false ->
  negb (nonempty a) || negb (truthy (token s))
    || negb (truthy (platform s)) || negb (truthy (meeting_id s)) = true.
Proof.
  unfold identity_complete.
  destruct (nonempty a), (truthy (token s)), (truthy (platform s)),
    (truthy (meeting_id s)); simpl; congruence.
Qed.

Lemma on_text_frame t s :
  let s' := snd (on_text t s) in
  buf s' = buf s /\ last_send s' = last_send s /\
  sent_session_start s' = sent_session_start s /\ offset_sec s' = offset_sec s /\
  n_clock s' = n_clock s /\ n_xadd s' = n_xadd s /\ n_transcribe s' = n_transcribe s /\
  n_uuid s' = n_uuid s /\ n_utcnow s' = n_utcnow s /\ trace s' = trace s.
Proof.
  destruct t as [[ | b | z | q | str | l | obj] | ]; simpl; unfold_prims; simpl;
    try (repeat split; reflexivity).
  repeat (case_if; simpl); try (repeat split; reflexivity).
  all: destruct (dict_get_default "payload" (JObj []) obj); simpl;
    repeat (case_if; simpl); repeat split; reflexivity.
Qed.

(** *** Lifting a relation between states from one message to a run *)

Section Lifting.

Variable W : World.
Variable P : message -> Prop.
Variable R : State -> State -> Prop.

Hypothesis R_refl : forall s, R s s.
Hypothesis R_trans : forall s1 s2 s3, R s1 s2 -> R s2 s3 -> R s1 s3.
Hypothesis R_body : forall m s, P m -> R s (snd (loop_body W m s)).
Hypothesis R_finally : forall s, R s (snd (finally_block W s)).

Lemma receive_loop_lift msgs :
  Forall P msgs -> forall s, R s (snd (receive_loop W msgs s)).
Proof.
  induction 1 as [ | m rest Hm _ IH]; intros s; simpl.
  - apply R_refl.
  - unfold bind. specialize (R_body m s Hm).
    destruct (loop_body W m s) as [[[ | ] | e] s1]; simpl in *; auto.
    eapply R_trans; [eassumption | apply IH].
Qed.

Lemma serve_lift msgs s : Forall P msgs -> R s (snd (serve W msgs s)).
Proof.
  intros HP. unfold serve.
  pose proof (receive_loop_lift msgs HP s) as H1.
  destruct (receive_loop W msgs s) as [[[u | ] | e] s1]; simpl in *; auto;
    pose proof (R_finally s1) as H2;
    destruct (finally_block W s1) as [[ [] | e'] s2]; simpl in *;
    eapply R_trans; eassumption.
Qed.

End Lifting.

Lemma receive_loop_app W m1 m2 s :
  receive_loop W (m1 ++ m2) s =
  match receive_loop W m1 s with
  | (Ok None, s1) => receive_loop W m2 s1
  | r => r
  end.
Proof.
  revert s. induction m1 as [ | m rest IH]; intros s; simpl.
  - reflexivity.
  - unfold bind. destruct (loop_body W m s) as [[[ | ] | e] s1]; simpl; auto.
Qed.

Lemma serve_app W m1 m2 s :
  serve W (m1 ++ m2) s =
  match receive_loop W m1 s with
  | (Ok None, s1) => serve W m2 s1
  | _ => serve W m1 s
  end.
Proof.
  unfold serve. rewrite receive_loop_app.
  destruct (receive_loop W m1 s) as [[[u | ] | e] s1]; reflexivity.
Qed.

(** A run extended by further messages continues from where it stood. *)
Lemma serve_extend W (R : State -> State -> Prop) :
  (forall s, R s s) ->
  (forall msgs s, R s (snd (serve W msgs s))) ->
  forall m1 m2 s, R (snd (serve W m1 s)) (snd (serve W (m1 ++ m2) s)).
Proof.
  intros Hrefl H m1 m2 s. rewrite serve_app. unfold serve at 1.
  destruct (receive_loop W m1 s) as [[[u | ] | e] s1] eqn:E; simpl.
  - unfold serve. rewrite E. apply Hrefl.
  - apply H.
  - unfold serve. rewrite E. apply Hrefl.
Qed.

Lemma session_starts_app tr1 tr2 :
  session_starts (tr1 ++ tr2) = (session_starts tr1 ++ session_starts tr2)%list.
Proof. unfold session_starts. rewrite published_app. apply filter_app. Qed.

Lemma transcriptions_app tr1 tr2 :
  transcriptions (tr1 ++ tr2) = (transcriptions tr1 ++ transcriptions tr2)%list.
Proof. unfold transcriptions. rewrite published_app. apply filter_app. Qed.

Lemma on_bytes_not_due W d s :
  due W s (loop_time W (n_clock s)) = false ->
  on_bytes W d s = (Ok tt, tick_clock (set_buf (buf s ++ d) s)).
Proof.
  unfold due. intros H.
  destruct s as [b spk ls tk pf mid u sent off nc nx nt nu nn tr].
  simpl in *. unfold_prims. simpl. rewrite H. reflexivity.
Qed.

Lemma serve_raise W m rest s e s1 :
  loop_body W m s = (Raise e, s1) ->
  serve W (m :: rest) s =
  match finally_block W s1 with
  | (Ok _, s') => (Raised e, s')
  | (Raise e', s') => (Raised e', s')
  end.
Proof.
  intros H. unfold serve. simpl. unfold bind at 1. rewrite H. reflexivity.
Qed.

(** ** A failing backend call (C1) *)

(** C1, as amended.  When the backend call of a due flush raises, that call
    of [flush_audio] publishes no Transcription record and returns no
    offset: the handling of the frame ends with the backend exception,
    [offset_sec] is unchanged and the buffer still holds the chunk.  The
    receive loop is left, so no later message is processed; the teardown
    calls [flush_audio] once more on the same bytes, and the handler ends
    with the backend exception. *)
Theorem backend_failure_ends_connection (W : World) (s : State) (d : list byte)
    (t : option (option json)) (rest : list message) :
  identity_complete s = true ->
  (buf s ++ d)%list <> [] ->
  due W s (loop_time W (n_clock s)) = true ->
  transcribe W (n_transcribe s) (wave_write W (buf s ++ d)) = None ->
  let m := Receive (Some d) t in
  (exists s1,
     loop_body W m s = (Raise BackendError, s1) /\
     buf s1 = (buf s ++ d)%list /\
     offset_sec s1 = offset_sec s /\
     transcriptions (trace s1) = transcriptions (trace s)) /\
  serve W (m :: rest) s = serve W [m] s /\
  fst (serve W [m] s) = Raised BackendError /\
  flushes (trace (snd (serve W [m] s))) =
    (flushes (trace s) ++ [buf s ++ d; buf s ++ d])%list.
Proof.
  intros Hid Hne Hdue Hb m.
  apply identity_complete_split in Hid as (Ht & Hp & Hm).
  apply nonempty_true in Hne. unfold due in Hdue.
  destruct s as [b spk ls tk pf mid u sent off nc nx nt nu nn tr].
  simpl in *.
  assert (Hbody : exists s1,
     loop_body W m (mkState b spk ls tk pf mid u sent off nc nx nt nu nn tr)
       = (Raise BackendError, s1) /\
     buf s1 = (b ++ d)%list /\ offset_sec s1 = off /\
     transcriptions (trace s1) = transcriptions tr /\
     truthy (token s1) = true /\ truthy (platform s1) = true /\
     truthy (meeting_id s1) = true /\
     flushes (trace s1) = (flushes tr ++ [b ++ d])%list).
  { subst m. simpl. unfold_prims. simpl.
    rewrite Hdue. simpl. rewrite Hne, Ht, Hp, Hm. simpl.
    destruct sent, (redis W); simpl; repeat (case_if; simpl); try congruence;
      eexists; (split; [reflexivity | ]); simpl;
      rewrite ?transcriptions_app, ?flushes_app; simpl;
      rewrite ?app_nil_r; repeat split; auto. }
  destruct Hbody as (s1 & Hl & Hb1 & Ho1 & Htr1 & Ht1 & Hp1 & Hm1 & Hf1).
  split; [exists s1; auto | ].
  rewrite (serve_raise W m rest _ _ _ Hl), (serve_raise W m [] _ _ _ Hl).
  split; [reflexivity | ].
  destruct s1 as [b1 spk1 ls1 tk1 pf1 mid1 u1 sent1 off1 nc1 nx1 nt1 nu1 nn1 tr1].
  simpl in *. subst b1.
  unfold_prims. simpl. rewrite Hne. simpl. rewrite ?Hne, ?Ht1, ?Hp1, ?Hm1. simpl.
  destruct sent1, (redis W); simpl; repeat (case_if; simpl);
    (split; [reflexivity | ]);
    rewrite ?flushes_app; simpl; rewrite ?app_nil_r, Hf1, <- ?app_assoc;
    reflexivity.
Qed.

(** The theorem on a run whose first backend call fails. *)
Lemma backend_failure_ends_connection_witness :
  identity_complete (identified backend_down_once) = true /\
  (buf (identified backend_down_once) ++ [x01; x02])%list <> [] /\
  due backend_down_once (identified backend_down_once)
    (loop_time backend_down_once (n_clock (identified backend_down_once))) = true /\
  transcribe backend_down_once (n_transcribe (identified backend_down_once))
    (wave_write backend_down_once
       (buf (identified backend_down_once) ++ [x01; x02])%list) = None /\
  serve backend_down_once (frame [x01; x02] :: [frame [x03; x04]])
    (identified backend_down_once) =
  serve backend_down_once [frame [x01; x02]] (identified backend_down_once) /\
  fst (serve backend_down_once [frame [x01; x02]] (identified backend_down_once)) =
  Raised BackendError.
Proof.
  assert (H1 : identity_complete (identified backend_down_once) = true)
    by (vm_compute; reflexivity).
  assert (H2 : (buf (identified backend_down_once) ++ [x01; x02])%list <> [])
    by (vm_compute; discriminate).
  assert (H3 : due backend_down_once (identified backend_down_once)
                 (loop_time backend_down_once
                    (n_clock (identified backend_down_once))) = true)
    by (vm_compute; reflexivity).
  assert (H4 : transcribe backend_down_once
                 (n_transcribe (identified backend_down_once))
                 (wave_write backend_down_once
                    (buf (identified backend_down_once) ++ [x01; x02])%list) = None)
    by (vm_compute; reflexivity).
  destruct (backend_failure_ends_connection backend_down_once
              (identified backend_down_once) [x01; x02] None [frame [x03; x04]]
              H1 H2 H3 H4) as (_ & A & B & _).
  exact (conj H1 (conj H2 (conj H3 (conj H4 (conj A B))))).
Defined.

(** C1 as stated fails: after identity, a due frame whose backend call
    raises leaves the loop with [BackendError] instead of continuing. *)
Lemma backend_failure_not_tolerated :
  transcribe backend_down_once (n_transcribe (identified backend_down_once))
    (wave_write backend_down_once
       (buf (identified backend_down_once) ++ [x01; x02])%list) = None /\
  ~ backend_failure_tolerated backend_down_once (identified backend_down_once)
      [x01; x02].
Proof.
  split; [vm_compute; reflexivity | ].
  unfold backend_failure_tolerated. intros [H _]. vm_compute in H. discriminate H.
Qed.

(** ** Flushes before the identity is known (C2) *)

(** C2, as amended.  While token, platform or meeting_id is missing,
    [flush_audio] returns its offset argument without calling the backend
    or Redis.  The receive loop nevertheless clears the buffer and resets
    the flush timer after such a flush: a due frame leaves [buf] empty,
    so the audio buffered up to it is not part of any later flush. *)
Theorem incomplete_identity_flush_discards (W : World) (s : State) (d : list byte)
    (t : option (option json)) :
  identity_complete s = false ->
  (forall a sp o, flush_audio W a sp o s = (Ok o, emit (EvFlush a) s)) /\
  (due W s (loop_time W (n_clock s)) = true ->
   exists s',
     loop_body W (Receive (Some d) t) s = (Ok Continue, s') /\
     buf s' = [] /\
     last_send s' = loop_time W (n_clock s) /\
     offset_sec s' = offset_sec s /\
     sent_session_start s' = sent_session_start s /\
     trace s' = (trace s ++ [EvFlush (buf s ++ d)])%list).
Proof.
  intros Hid. split.
  - intros a sp o. pose proof (identity_incomplete_noop s a Hid) as Hn.
    unfold flush_audio, bind, modify, get, ret. simpl. rewrite Hn. reflexivity.
  - unfold due. intros Hdue.
    pose proof (identity_incomplete_noop s (buf s ++ d) Hid) as Hn.
    destruct s as [b spk ls tk pf mid u sent off nc nx nt nu nn tr].
    simpl in *. unfold_prims. simpl. rewrite Hdue. simpl. rewrite Hn. simpl.
    eexists. split; [reflexivity | ]. simpl. repeat split; reflexivity.
Qed.

(** The theorem on the first frame of a connection, already due. *)
Lemma incomplete_identity_flush_discards_witness :
  identity_complete (accepted calm) = false /\
  due calm (accepted calm) (loop_time calm (n_clock (accepted calm))) = true /\
  exists s',
    loop_body calm (Receive (Some [x01; x02]) None) (accepted calm) = (Ok Continue, s') /\
    buf s' = [] /\
    last_send s' = loop_time calm (n_clock (accepted calm)) /\
    offset_sec s' = offset_sec (accepted calm) /\
    sent_session_start s' = sent_session_start (accepted calm) /\
    trace s' = (trace (accepted calm) ++ [EvFlush (buf (accepted calm) ++ [x01; x02])])%list.
Proof.
  assert (H1 : identity_complete (accepted calm) = false) by (vm_compute; reflexivity).
  assert (H2 : due calm (accepted calm) (loop_time calm (n_clock (accepted calm))) = true)
    by (vm_compute; reflexivity).
  exact (conj H1 (conj H2
           (proj2 (incomplete_identity_flush_discards calm (accepted calm)
                     [x01; x02] None H1) H2))).
Defined.

(** C2 as stated fails: bytes 01 02 arrive before the identity message and
    are flushed to no effect; the flush after the identity message hands
    only 03 04 to the backend. *)
Lemma early_audio_discarded :
  ~ early_audio_kept calm [x01; x02] (text_frame (JObj identity_obj)) [x03; x04].
Proof.
  unfold early_audio_kept. intros [_ H]. vm_compute in H. discriminate H.
Qed.

(** ** The uid of the published records (C3) *)

Section CorrelationId.

Variable W : World.
Variable u : json.
Hypothesis u_truthy : truthy u = true.

Ltac uid_tac :=
  intros; subst; simpl in *; try congruence;
  (split; [reflexivity | ]);
  eexists; (split; [rewrite <- ?app_assoc; simpl; try reflexivity;
                    symmetry; apply app_nil_r | ]);
  simpl; repeat constructor.

Lemma on_bytes_uid_carried d s : uid_carried u s (snd (on_bytes W d s)).
Proof.
  destruct s as [b spk ls tk pf mid u0 sent off nc nx nt nu nn tr].
  unfold uid_carried. unfold_prims. simpl.
  repeat (case_if; simpl); uid_tac.
Qed.

Lemma finally_block_uid_carried s : uid_carried u s (snd (finally_block W s)).
Proof.
  destruct s as [b spk ls tk pf mid u0 sent off nc nx nt nu nn tr].
  unfold uid_carried. unfold_prims. simpl.
  repeat (case_if; simpl); uid_tac.
Qed.

Lemma uid_carried_refl s : uid_carried u s s.
Proof.
  intros H. split; [exact H | ]. exists []. split; [symmetry; apply app_nil_r | constructor].
Qed.

Lemma uid_carried_trans s1 s2 s3 :
  uid_carried u s1 s2 -> uid_carried u s2 s3 -> uid_carried u s1 s3.
Proof.
  intros H12 H23 H1. destruct (H12 H1) as (H2 & tl1 & E1 & F1).
  destruct (H23 H2) as (H3 & tl2 & E2 & F2). split; [exact H3 | ].
  exists (tl1 ++ tl2)%list. split.
  - rewrite E2, E1, app_assoc. reflexivity.
  - rewrite published_app. apply Forall_app. auto.
Qed.

Lemma on_text_uid_carried t s :
  keeps_uid u (Receive None (Some t)) -> uid_carried u s (snd (on_text t s)).
Proof.
  intros Hk Hu.
  destruct (on_text_frame t s) as (_ & _ & _ & _ & _ & _ & _ & _ & _ & Htr).
  split.
  - destruct t as [[ | b | z | q | str | l | obj] | ]; simpl in *; auto.
    unfold_prims. simpl.
    destruct (has_key "token" obj && has_key "platform" obj && has_key "meeting_id" obj);
      simpl.
    + rewrite Hu. auto.
    + destruct (py_eq (dict_get "type" obj) (JStr "speaker_activity")); simpl; auto.
      destruct (dict_get_default "payload" (JObj []) obj); simpl; auto.
      repeat (case_if; simpl); auto.
  - exists []. rewrite Htr. split; [symmetry; apply app_nil_r | constructor].
Qed.

Lemma loop_body_uid_carried m s : keeps_uid u m -> uid_carried u s (snd (loop_body W m s)).
Proof.
  destruct m as [ | [d | ] [t | ]]; simpl; intros Hk; try apply uid_carried_refl.
  - unfold bind at 1. pose proof (on_bytes_uid_carried d s) as H.
    destruct (on_bytes W d s) as [[ [] | e] s1]; exact H.
  - unfold bind at 1. pose proof (on_bytes_uid_carried d s) as H.
    destruct (on_bytes W d s) as [[ [] | e] s1]; exact H.
  - unfold bind at 1. pose proof (on_text_uid_carried t s Hk) as H.
    destruct (on_text t s) as [[ [] | e] s1]; exact H.
Qed.

Lemma serve_uid_carried msgs s :
  Forall (keeps_uid u) msgs -> uid_carried u s (snd (serve W msgs s)).
Proof.
  apply serve_lift.
  - apply uid_carried_refl.
  - apply uid_carried_trans.
  - intros; apply loop_body_uid_carried; assumption.
  - apply finally_block_uid_carried.
Qed.

End CorrelationId.

Lemma ascending_bounds lo ks hi : ascending lo ks hi -> (lo <= hi)%nat.
Proof.
  revert lo. induction ks as [ | k ks IH]; simpl; intros lo H; [exact H | ].
  destruct H as [H1 H2]. apply IH in H2. lia.
Qed.

Lemma ascending_weaken lo lo' ks hi :
  (lo' <= lo)%nat -> ascending lo ks hi -> ascending lo' ks hi.
Proof. destruct ks; simpl; intros; [lia | intuition lia]. Qed.

Lemma ascending_app lo ks mid ks' hi :
  ascending lo ks mid -> ascending mid ks' hi -> ascending lo (ks ++ ks') hi.
Proof.
  revert lo. induction ks as [ | k ks IH]; simpl; intros lo H1 H2.
  - eapply ascending_weaken; eassumption.
  - destruct H1 as [H1 H1']. split; [exact H1 | apply IH; assumption].
Qed.

Lemma ascending_lower lo ks hi : ascending lo ks hi -> Forall (fun k => (lo <= k)%nat) ks.
Proof.
  revert lo. induction ks as [ | k ks IH]; simpl; intros lo H; constructor.
  - apply H.
  - destruct H as [H1 H2]. apply IH in H2.
    eapply Forall_impl; [ | exact H2]. simpl. intros a Ha. lia.
Qed.

Lemma ascending_NoDup lo ks hi : ascending lo ks hi -> NoDup ks.
Proof.
  revert lo. induction ks as [ | k ks IH]; simpl; intros lo H; constructor.
  - destruct H as [_ H]. apply ascending_lower in H. intros Hin.
    rewrite Forall_forall in H. apply H in Hin. lia.
  - destruct H as [_ H]. eapply IH; exact H.
Qed.

Section FreshUid.

Variable W : World.
Variable u : json.
Hypothesis u_falsy : truthy u = false.

Ltac drawn_fin :=
  split; [rewrite <- ?app_assoc; simpl; try reflexivity; symmetry; apply app_nil_r | ];
  split; [simpl; reflexivity | simpl; repeat split; lia].

Ltac drawn_tac nu :=
  intros; subst; simpl in *; try congruence;
  (split; [reflexivity | ]);
  eexists;
  first [ exists (@nil nat); drawn_fin
        | exists [nu]; drawn_fin
        | exists [S nu]; drawn_fin
        | exists [nu; S nu]; drawn_fin ].

Lemma on_bytes_uid_drawn d s : uid_drawn W u s (snd (on_bytes W d s)).
Proof.
  destruct s as [b spk ls tk pf mid u0 sent off nc nx nt nu nn tr].
  unfold uid_drawn. unfold_prims. simpl.
  repeat (case_if; simpl); drawn_tac nu.
Qed.

Lemma finally_block_uid_drawn s : uid_drawn W u s (snd (finally_block W s)).
Proof.
  destruct s as [b spk ls tk pf mid u0 sent off nc nx nt nu nn tr].
  unfold uid_drawn. unfold_prims. simpl.
  repeat (case_if; simpl); drawn_tac nu.
Qed.

Lemma uid_drawn_refl s : uid_drawn W u s s.
Proof.
  intros H. split; [exact H | ]. exists [], [].
  split; [symmetry; apply app_nil_r | ]. split; [reflexivity | simpl; lia].
Qed.

Lemma uid_drawn_trans s1 s2 s3 :
  uid_drawn W u s1 s2 -> uid_drawn W u s2 s3 -> uid_drawn W u s1 s3.
Proof.
  intros H12 H23 H1. destruct (H12 H1) as (H2 & t1 & k1 & E1 & F1 & G1).
  destruct (H23 H2) as (H3 & t2 & k2 & E2 & F2 & G2). split; [exact H3 | ].
  exists (t1 ++ t2)%list, (k1 ++ k2)%list. split; [ | split].
  - rewrite E2, E1, app_assoc. reflexivity.
  - rewrite published_app, !map_app, F1, F2. reflexivity.
  - eapply ascending_app; eassumption.
Qed.

Lemma on_text_uid_drawn t s :
  keeps_uid u (Receive None (Some t)) -> uid_drawn W u s (snd (on_text t s)).
Proof.
  intros Hk Hu.
  destruct (on_text_frame t s) as (_ & _ & _ & _ & _ & _ & _ & Hn & _ & Htr).
  split.
  - destruct t as [[ | b | z | q | str | l | obj] | ]; simpl in *; auto.
    unfold_prims. simpl.
    destruct (has_key "token" obj && has_key "platform" obj && has_key "meeting_id" obj);
      simpl.
    + rewrite Hu. auto.
    + destruct (py_eq (dict_get "type" obj) (JStr "speaker_activity")); simpl; auto.
      destruct (dict_get_default "payload" (JObj []) obj); simpl; auto.
      repeat (case_if; simpl); auto.
  - exists [], []. rewrite Htr, Hn.
    split; [symmetry; apply app_nil_r | ]. split; [reflexivity | simpl; lia].
Qed.

Lemma loop_body_uid_drawn m s : keeps_uid u m -> uid_drawn W u s (snd (loop_body W m s)).
Proof.
  destruct m as [ | [d | ] [t | ]]; simpl; intros Hk; try apply uid_drawn_refl.
  - unfold bind at 1. pose proof (on_bytes_uid_drawn d s) as H.
    destruct (on_bytes W d s) as [[ [] | e] s1]; exact H.
  - unfold bind at 1. pose proof (on_bytes_uid_drawn d s) as H.
    destruct (on_bytes W d s) as [[ [] | e] s1]; exact H.
  - unfold bind at 1. pose proof (on_text_uid_drawn t s Hk) as H.
    destruct (on_text t s) as [[ [] | e] s1]; exact H.
Qed.

Lemma serve_uid_drawn msgs s :
  Forall (keeps_uid u) msgs -> uid_drawn W u s (snd (serve W msgs s)).
Proof.
  apply serve_lift.
  - apply uid_drawn_refl.
  - apply uid_drawn_trans.
  - intros; apply loop_body_uid_drawn; assumption.
  - apply finally_block_uid_drawn.
Qed.

End FreshUid.

Lemma uid_draws_distinct (W : World) ks lo hi :
  (forall i j, uuid4 W i = uuid4 W j -> i = j) ->
  ascending lo ks hi ->
  NoDup (map (fun k => JStr (uuid4 W k)) ks).
Proof.
  intros Hinj Ha. apply ascending_NoDup in Ha.
  induction Ha as [ | k ks Hk _ IH]; simpl; constructor; [ | exact IH].
  intros Hin. apply in_map_iff in Hin as (j & E & Hj).
  inversion E as [E']. apply Hinj in E'. subst j. contradiction.
Qed.

(** C3, as amended.  From a state whose uid is a truthy value [u], and as
    long as no identity message replaces it, every record published carries
    [u].  While no uid has been supplied nothing is stored for the session:
    each record takes the next value drawn from [uuid4], so the
    SessionStart record and the Transcription record of one flush carry the
    values of two consecutive draws; [flush_audio] never assigns the uid;
    and over any run whose identity messages supply no uid, the uid is
    still unset at the end and the records published carry, in order, the
    values of draws of [uuid4] with strictly increasing numbers, all made
    during the run: no record repeats the draw of another, and the uids are
    pairwise different as soon as [uuid4] never returns a value twice. *)
Theorem uid_per_event_unless_supplied (W : World) :
  (forall u msgs s,
     truthy u = true -> uid s = u -> Forall (keeps_uid u) msgs ->
     exists tl,
       trace (snd (serve W msgs s)) = (trace s ++ tl)%list /\
       Forall (fun p => field "uid" p = u) (published tl)) /\
  (forall a sp o s text,
     truthy (uid s) = false ->
     redis W = true -> nonempty a = true -> identity_complete s = true ->
     sent_session_start s = false ->
     xadd_ok W (n_xadd s) = true -> xadd_ok W (S (n_xadd s)) = true ->
     transcribe W (n_transcribe s) (wave_write W a) = Some text ->
     published (trace (snd (flush_audio W a sp o s))) =
     (published (trace s) ++
      [session_start_payload (token s) (platform s) (meeting_id s)
         (JStr (uuid4 W (n_uuid s))) (utcnow_iso W (n_utcnow s));
       transcription_payload (token s) (platform s) (meeting_id s)
         (segment_of text o (o + CHUNK_SECONDS W))
         (JStr (uuid4 W (S (n_uuid s))))])%list) /\
  (forall a sp o s, uid (snd (flush_audio W a sp o s)) = uid s) /\
  (forall msgs s,
     truthy (uid s) = false -> Forall (keeps_uid (uid s)) msgs ->
     uid (snd (serve W msgs s)) = uid s /\
     exists tl ks,
       trace (snd (serve W msgs s)) = (trace s ++ tl)%list /\
       map (field "uid") (published tl) = map (fun k => JStr (uuid4 W k)) ks /\
       ascending (n_uuid s) ks (n_uuid (snd (serve W msgs s))) /\
       ((forall i j, uuid4 W i = uuid4 W j -> i = j) ->
        NoDup (map (field "uid") (published tl)))).
Proof.
  split; [ | split; [ | split]].
  - intros u msgs s Hu Hs HF.
    destruct (serve_uid_carried W u Hu msgs s HF Hs) as (_ & tl & E & F).
    exists tl. auto.
  - intros a sp o s text Hu Hr Ha Hid Hs Hx1 Hx2 Hb.
    apply identity_complete_split in Hid as (Ht & Hp & Hm).
    destruct s as [b spk ls tk pf mid u0 sent off nc nx nt nu nn tr].
    simpl in *. subst sent.
    unfold_prims. simpl.
    rewrite Ha, Ht, Hp, Hm, Hr. simpl. rewrite Hu. simpl. rewrite Hx1. simpl.
    rewrite Hb. simpl. rewrite Hu. simpl. rewrite Hx2. simpl.
    rewrite !published_app. simpl. rewrite !app_nil_r, <- !app_assoc. reflexivity.
  - intros a sp o s.
    destruct s as [b spk ls tk pf mid u0 sent off nc nx nt nu nn tr].
    unfold_prims. simpl. repeat (case_if; simpl); reflexivity.
  - intros msgs s Hu HF.
    destruct (serve_uid_drawn W (uid s) Hu msgs s HF eq_refl)
      as (E & tl & ks & Et & Em & Ha).
    split; [exact E | ]. exists tl, ks.
    split; [exact Et | ]. split; [exact Em | ]. split; [exact Ha | ].
    intros Hinj. rewrite Em. eapply uid_draws_distinct; eassumption.
Qed.

(** The theorem on a session whose identity message carries a uid. *)
Lemma uid_per_event_unless_supplied_witness :
  truthy (JStr "conn-7") = true /\
  Forall (keeps_uid (JStr "conn-7"))
    [frame [x01; x02]; text_frame (JObj identity_obj); frame [x03; x04]; Disconnect] /\
  exists tl,
    trace (snd (serve calm
                  [frame [x01; x02]; text_frame (JObj identity_obj);
                   frame [x03; x04]; Disconnect]
                  (snd (ws_proxy calm [text_frame (JObj identity_with_uid)])))) =
    (trace (snd (ws_proxy calm [text_frame (JObj identity_with_uid)])) ++ tl)%list /\
    Forall (fun p => field "uid" p = JStr "conn-7") (published tl).
Proof.
  assert (H1 : truthy (JStr "conn-7") = true) by (vm_compute; reflexivity).
  assert (H2 : Forall (keeps_uid (JStr "conn-7"))
                 [frame [x01; x02]; text_frame (JObj identity_obj);
                  frame [x03; x04]; Disconnect]).
  { repeat constructor. }
  split; [exact H1 | split; [exact H2 | ]].
  exact (proj1 (uid_per_event_unless_supplied calm) (JStr "conn-7") _
           (snd (ws_proxy calm [text_frame (JObj identity_with_uid)]))
           H1 eq_refl H2).
Defined.

(** C3 as stated fails: with no uid supplied, the two records of the first
    flush carry different generated uids. *)
Lemma uid_differs_between_events :
  ~ single_uid
      (trace (snd (ws_proxy calm [text_frame (JObj identity_obj); frame [x01; x02]]))).
Proof.
  intros [u H]. vm_compute in H.
  inversion H as [ | p1 l1 H1 H2]; subst.
  inversion H2 as [ | p2 l2 H3 H4]; subst.
  discriminate H3.
Qed.

(** ** SessionStart is announced once (C4) *)

Ltac announce_tac :=
  unfold announced_once; simpl;
  rewrite ?session_starts_app, ?length_app; simpl;
  intros; try congruence; try lia.

Lemma flush_audio_flag_kept W a sp o s : flag_kept s (snd (flush_audio W a sp o s)).
Proof.
  destruct s as [b spk ls tk pf mid u sent off nc nx nt nu nn tr].
  unfold flag_kept. unfold_prims. simpl.
  destruct sent, (redis W) eqn:Hr; simpl;
    repeat (case_if; simpl); split; announce_tac.
Qed.

Lemma on_bytes_flag_kept W d s : flag_kept s (snd (on_bytes W d s)).
Proof.
  destruct s as [b spk ls tk pf mid u sent off nc nx nt nu nn tr].
  unfold flag_kept. unfold_prims. simpl.
  destruct sent, (redis W) eqn:Hr; simpl;
    repeat (case_if; simpl); split; announce_tac.
Qed.

Lemma on_text_flag_kept t s : flag_kept s (snd (on_text t s)).
Proof.
  destruct (on_text_frame t s) as (_ & _ & Hs & _ & _ & _ & _ & _ & _ & Ht).
  unfold flag_kept, announced_once. rewrite Hs, Ht. auto.
Qed.

Lemma flag_kept_refl s : flag_kept s s.
Proof. unfold flag_kept. auto. Qed.

Lemma flag_kept_trans s1 s2 s3 : flag_kept s1 s2 -> flag_kept s2 s3 -> flag_kept s1 s3.
Proof. unfold flag_kept. intuition. Qed.

Lemma loop_body_flag_kept W m s : flag_kept s (snd (loop_body W m s)).
Proof.
  destruct m as [ | [d | ] [t | ]]; simpl; try apply flag_kept_refl.
  - unfold bind at 1. pose proof (on_bytes_flag_kept W d s) as H.
    destruct (on_bytes W d s) as [[ [] | e] s1]; exact H.
  - unfold bind at 1. pose proof (on_bytes_flag_kept W d s) as H.
    destruct (on_bytes W d s) as [[ [] | e] s1]; exact H.
  - unfold bind at 1. pose proof (on_text_flag_kept t s) as H.
    destruct (on_text t s) as [[ [] | e] s1]; exact H.
Qed.

Lemma finally_block_flag_kept W s : flag_kept s (snd (finally_block W s)).
Proof.
  destruct s as [b spk ls tk pf mid u sent off nc nx nt nu nn tr].
  unfold flag_kept. unfold_prims. simpl.
  destruct sent, (redis W) eqn:Hr; simpl;
    repeat (case_if; simpl); split; announce_tac.
Qed.

Lemma serve_flag_kept W msgs s : flag_kept s (snd (serve W msgs s)).
Proof.
  apply serve_lift with (P := fun _ => True).
  - apply flag_kept_refl.
  - apply flag_kept_trans.
  - intros; apply loop_body_flag_kept.
  - apply finally_block_flag_kept.
  - apply Forall_forall; auto.
Qed.

(** C4.  The flag [sent_session_start] is false when the connection is
    accepted; after any sequence of messages, teardown included, the number
    of session_start records on the stream is 1 if the flag is set and 0
    otherwise, hence at most one; and a flag that is set after a run is
    still set after any longer run. *)
Theorem session_start_at_most_once (W : World) :
  sent_session_start (accepted W) = false /\
  (forall msgs,
     let s := snd (ws_proxy W msgs) in
     List.length (session_starts (trace s)) =
     if sent_session_start s then 1%nat else 0%nat) /\
  (forall msgs1 msgs2,
     sent_session_start (snd (ws_proxy W msgs1)) = true ->
     sent_session_start (snd (ws_proxy W (msgs1 ++ msgs2))) = true).
Proof.
  split; [reflexivity | split].
  - intros msgs. apply (serve_flag_kept W msgs (accepted W)). reflexivity.
  - intros msgs1 msgs2. unfold ws_proxy.
    apply (serve_extend W flag_kept flag_kept_refl (serve_flag_kept W)).
Qed.

(** The theorem on a run that is extended by a frame and a disconnect. *)
Lemma session_start_at_most_once_witness :
  sent_session_start
    (snd (ws_proxy calm [text_frame (JObj identity_obj); frame [x01; x02]])) = true /\
  sent_session_start
    (snd (ws_proxy calm
            ([text_frame (JObj identity_obj); frame [x01; x02]] ++
             [frame [x03; x04]; Disconnect]))) = true.
Proof.
  assert (H : sent_session_start
                (snd (ws_proxy calm
                        [text_frame (JObj identity_obj); frame [x01; x02]])) = true)
    by (vm_compute; reflexivity).
  split; [exact H | ].
  exact (proj2 (proj2 (session_start_at_most_once calm)) _ _ H).
Defined.

(** ** The timeline offset (C5) *)

Section Timeline.

Variable W : World.
Hypothesis chunk_nonneg : (0 <= CHUNK_SECONDS W)%Q.

Lemma on_bytes_not_before d s : not_before s (snd (on_bytes W d s)).
Proof.
  destruct s as [b spk ls tk pf mid u sent off nc nx nt nu nn tr].
  unfold not_before. unfold_prims. simpl.
  repeat (case_if; simpl); lra.
Qed.

Lemma finally_block_not_before s : not_before s (snd (finally_block W s)).
Proof.
  destruct s as [b spk ls tk pf mid u sent off nc nx nt nu nn tr].
  unfold not_before. unfold_prims. simpl.
  repeat (case_if; simpl); lra.
Qed.

Lemma loop_body_not_before m s : not_before s (snd (loop_body W m s)).
Proof.
  destruct m as [ | [d | ] [t | ]]; simpl; try apply Qle_refl.
  - unfold bind at 1. pose proof (on_bytes_not_before d s) as H.
    destruct (on_bytes W d s) as [[ [] | e] s1]; exact H.
  - unfold bind at 1. pose proof (on_bytes_not_before d s) as H.
    destruct (on_bytes W d s) as [[ [] | e] s1]; exact H.
  - unfold bind at 1.
    destruct (on_text_frame t s) as (_ & _ & _ & Ho & _).
    destruct (on_text t s) as [[ [] | e] s1]; simpl in *;
      unfold not_before; rewrite Ho; apply Qle_refl.
Qed.

Lemma serve_not_before msgs s : not_before s (snd (serve W msgs s)).
Proof.
  apply serve_lift with (P := fun _ => True).
  - intros; apply Qle_refl.
  - intros s1 s2 s3; apply Qle_trans.
  - intros; apply loop_body_not_before.
  - apply finally_block_not_before.
  - apply Forall_forall; auto.
Qed.

End Timeline.

(** C5.  The offset is 0 when the connection is accepted.  A call of
    [flush_audio] that returns gives back its offset argument or that
    argument plus [CHUNK_SECONDS]; when the backend answers, it returns the
    argument plus [CHUNK_SECONDS] and the segment it hands to Redis starts
    at the argument and ends at the sum.  The receive loop calls it with the
    current offset and stores what it returns: a due frame whose flush is
    answered leaves [offset_sec] at the old offset plus [CHUNK_SECONDS],
    which is the end of the segment handed to Redis, and the segment starts
    at the old offset; so does the flush of the teardown; any other frame
    leaves the offset where it was or one chunk further.  For a chunk
    length that is not negative the offset never decreases over a run. *)
Theorem timeline_offset_monotone (W : World) :
  offset_sec (accepted W) = 0%Q /\
  (forall a sp o s o' s',
     flush_audio W a sp o s = (Ok o', s') ->
     o' = o \/ o' = (o + CHUNK_SECONDS W)%Q) /\
  (forall a sp o s text,
     redis W = true -> nonempty a = true -> identity_complete s = true ->
     transcribe W (n_transcribe s) (wave_write W a) = Some text ->
     let r := flush_audio W a sp o s in
     fst r = Ok (o + CHUNK_SECONDS W)%Q /\
     exists tl u ok,
       trace (snd r) =
       (trace s ++ tl ++
        [EvXadd (STREAM_NAME W)
           (transcription_payload (token s) (platform s) (meeting_id s)
              (segment_of text o (o + CHUNK_SECONDS W)) u) ok])%list) /\
  (forall d s s',
     on_bytes W d s = (Ok tt, s') ->
     offset_sec s' = offset_sec s \/
     offset_sec s' = (offset_sec s + CHUNK_SECONDS W)%Q) /\
  (forall d s text,
     due W s (loop_time W (n_clock s)) = true ->
     nonempty (buf s ++ d) = true -> identity_complete s = true ->
     transcribe W (n_transcribe s) (wave_write W (buf s ++ d)%list) = Some text ->
     exists s',
       on_bytes W d s = (Ok tt, s') /\
       offset_sec s' = (offset_sec s + CHUNK_SECONDS W)%Q /\
       (redis W = true ->
        exists tl u ok,
          trace s' =
          (trace s ++ tl ++
           [EvXadd (STREAM_NAME W)
              (transcription_payload (token s) (platform s) (meeting_id s)
                 (segment_of text (offset_sec s) (offset_sec s + CHUNK_SECONDS W)) u)
              ok])%list)) /\
  (forall s text,
     nonempty (buf s) = true -> identity_complete s = true ->
     transcribe W (n_transcribe s) (wave_write W (buf s)) = Some text ->
     fst (finally_block W s) = Ok tt /\
     offset_sec (snd (finally_block W s)) = (offset_sec s + CHUNK_SECONDS W)%Q) /\
  (forall d s,
     due W s (loop_time W (n_clock s)) = false ->
     offset_sec (snd (on_bytes W d s)) = offset_sec s) /\
  ((0 <= CHUNK_SECONDS W)%Q ->
   forall msgs1 msgs2,
     (offset_sec (snd (ws_proxy W msgs1)) <=
      offset_sec (snd (ws_proxy W (msgs1 ++ msgs2))))%Q).
Proof.
  split; [reflexivity | ].
  split; [ | split; [ | split; [ | split; [ | split; [ | split]]]]].
  - intros a sp o s o' s'. unfold_prims. simpl.
    repeat (case_if; simpl); intros H; inversion H; auto.
  - intros a sp o s text Hr Ha Hid Hb.
    apply identity_complete_split in Hid as (Ht & Hp & Hm).
    unfold_prims. simpl. rewrite Ha, Ht, Hp, Hm, Hr. simpl.
    destruct s as [b spk ls tk pf mid u sent off nc nx nt nu nn tr]. simpl in *.
    destruct sent; simpl; repeat (case_if; simpl); try congruence;
      (split; [congruence | ]);
      match goal with H : Some _ = Some _ |- _ => inversion H; subst end;
      rewrite <- ?app_assoc; simpl;
      first [ eexists [_; _; _], _, _; simpl; reflexivity
            | eexists [_; _; _; _], _, _; simpl; reflexivity ].
  - intros d s s'.
    destruct s as [b spk ls tk pf mid u sent off nc nx nt nu nn tr].
    unfold_prims. simpl.
    repeat (case_if; simpl); intros H; inversion H; simpl; auto.
  - intros d s text Hd Ha Hid Hb. unfold due in Hd.
    apply identity_complete_split in Hid as (Ht & Hp & Hm).
    destruct s as [b spk ls tk pf mid u sent off nc nx nt nu nn tr]. simpl in *.
    unfold_prims. simpl. rewrite Hd. simpl. rewrite Ha, Ht, Hp, Hm. simpl.
    destruct sent, (redis W); simpl; repeat (case_if; simpl); try congruence;
      eexists; (split; [reflexivity | ]); (split; [reflexivity | ]);
      intros Hr; try discriminate Hr;
      match goal with H : Some _ = Some _ |- _ => inversion H; subst end;
      simpl; rewrite <- ?app_assoc; simpl;
      first [ eexists [_; _; _], _, _; simpl; reflexivity
            | eexists [_; _; _; _], _, _; simpl; reflexivity ].
  - intros s text Ha Hid Hb.
    apply identity_complete_split in Hid as (Ht & Hp & Hm).
    destruct s as [b spk ls tk pf mid u sent off nc nx nt nu nn tr]. simpl in *.
    unfold_prims. simpl. rewrite Ha. simpl. rewrite ?Ha, Ht, Hp, Hm. simpl.
    destruct sent, (redis W); simpl; repeat (case_if; simpl); try congruence;
      split; reflexivity.
  - intros d s Hd. rewrite (on_bytes_not_due W d s Hd). reflexivity.
  - intros Hc msgs1 msgs2. unfold ws_proxy.
    apply (serve_extend W not_before (fun s => Qle_refl (offset_sec s))
             (serve_not_before W Hc)).
Qed.

(** The theorem in the default configuration. *)
Lemma timeline_offset_monotone_witness :
  (0 <= CHUNK_SECONDS calm)%Q /\
  (offset_sec (snd (ws_proxy calm [text_frame (JObj identity_obj); frame [x01; x02]])) <=
   offset_sec
     (snd (ws_proxy calm
             ([text_frame (JObj identity_obj); frame [x01; x02]] ++
              [frame [x03; x04]; Disconnect]))))%Q.
Proof.
  assert (H : (0 <= CHUNK_SECONDS calm)%Q) by (vm_compute; discriminate).
  split; [exact H | ].
  destruct (timeline_offset_monotone calm) as (_ & _ & _ & _ & _ & _ & _ & M).
  apply (M H).
Defined.

(** ** The SessionStart publish is best effort (C6) *)

(** C6.  With the Redis handle in place, non-empty audio, a complete
    identity and the flag still unset, [flush_audio] first calls [xadd]
    with a session_start payload; whether or not that call returns, the
    backend is called next on the converted audio; the flag afterwards is
    set exactly when the [xadd] call returned. *)
Theorem session_start_best_effort (W : World) (s : State) (audio : list byte)
    (sp : json) (o : Q) :
  redis W = true ->
  audio <> [] ->
  identity_complete s = true ->
  sent_session_start s = false ->
  let ok := xadd_ok W (n_xadd s) in
  let u := if truthy (uid s) then uid s else JStr (uuid4 W (n_uuid s)) in
  let ts := utcnow_iso W (n_utcnow s) in
  let wav := wave_write W audio in
  let s' := snd (flush_audio W audio sp o s) in
  sent_session_start s' = ok /\
  exists tl,
    trace s' =
      (trace s ++
       [EvFlush audio;
        EvXadd (STREAM_NAME W)
          (session_start_payload (token s) (platform s) (meeting_id s) u ts) ok;
        EvTranscribe (MODEL W) wav (transcribe W (n_transcribe s) wav)] ++ tl)%list.
Proof.
  intros Hr Ha Hid Hs.
  apply identity_complete_split in Hid as (Ht & Hp & Hm).
  apply nonempty_true in Ha.
  unfold_prims. simpl. rewrite Ha, Ht, Hp, Hm, Hr, Hs. simpl.
  repeat (case_if; simpl).
  all: split; [simpl; congruence|].
  all: rewrite <- ?app_assoc; simpl.
  all: try (eexists; reflexivity).
  all: try (exists []; reflexivity).
Qed.

(** The theorem on a flush whose SessionStart publish fails. *)
Lemma session_start_best_effort_witness :
  redis redis_down_once = true /\
  [x01; x02] <> ([] : list byte) /\
  identity_complete (identified redis_down_once) = true /\
  sent_session_start (identified redis_down_once) = false /\
  sent_session_start
    (snd (flush_audio redis_down_once [x01; x02] (JStr "unknown") 0
            (identified redis_down_once))) = false /\
  exists tl,
    trace (snd (flush_audio redis_down_once [x01; x02] (JStr "unknown") 0
                  (identified redis_down_once))) =
    ([EvFlush [x01; x02];
      EvXadd "transcription_segments"
        (session_start_payload (JStr "t1") (JStr "zoom") (JStr "m1")
           (JStr "uuid-0") "2024-01-01T00:00:00") false;
      EvTranscribe "whisper-1" [x01; x02] (Some "hello")] ++ tl)%list.
Proof.
  assert (H1 : redis redis_down_once = true) by (vm_compute; reflexivity).
  assert (H2 : [x01; x02] <> ([] : list byte)) by discriminate.
  assert (H3 : identity_complete (identified redis_down_once) = true)
    by (vm_compute; reflexivity).
  assert (H4 : sent_session_start (identified redis_down_once) = false)
    by (vm_compute; reflexivity).
  destruct (session_start_best_effort redis_down_once (identified redis_down_once)
              [x01; x02] (JStr "unknown") 0 H1 H2 H3 H4) as (A & tl & E).
  refine (conj H1 (conj H2 (conj H3 (conj H4 (conj A _))))).
  exists tl. exact E.
Defined.

(** ** The final flush (C7) *)

(** C7.  On a disconnect message with bytes left in the buffer,
    [flush_audio] is entered exactly once more, with exactly those bytes,
    and [ws.close()] comes after everything that flush does (it is not
    reached when the flush ends with the backend exception); with an empty
    buffer nothing happens but [ws.close()]. *)
Theorem final_flush_on_disconnect (W : World) (s : State) (rest : list message) :
  let r := serve W (Disconnect :: rest) s in
  if nonempty (buf s)
  then
    exists calls,
      forallb is_call calls = true /\
      (backend_calls calls = [] \/ backend_calls calls = [wave_write W (buf s)]) /\
      ((fst r = Returned /\
        trace (snd r) = (trace s ++ EvFlush (buf s) :: calls ++ [EvClose])%list) \/
       (fst r = Raised BackendError /\
        trace (snd r) = (trace s ++ EvFlush (buf s) :: calls)%list))
  else
    fst r = Returned /\ trace (snd r) = (trace s ++ [EvClose])%list.
Proof.
  destruct s as [b spk ls tk pf mid u sent off nc nx nt nu nn tr].
  unfold serve. simpl. unfold_prims. simpl.
  destruct b as [ | x b']; simpl; [split; reflexivity | ].
  repeat (case_if; simpl); rewrite <- ?app_assoc; simpl;
    eexists; (split; [ | split ]); cycle 2.
  all: try (left; split; [reflexivity | ];
            match goal with
            | |- (_ ++ _ :: ?l)%list = _ =>
                instantiate (1 := removelast l); reflexivity
            end).
  all: try (right; split; reflexivity).
  all: simpl; auto.
Qed.

(** ** Speaker activity (C8) *)



(** ** The first chunk (C9) *)






(** ** Speaker activity does not reach the stream (C10) *)








Section SpeakerIndependence.

Variable W : World.








End SpeakerIndependence.




(** * Further properties of the proxy *)

Lemma loop_body_conserves W m c s s1 :
  loop_body W m s = (Ok c, s1) ->
  (flushed s1 ++ buf s1)%list =
  (flushed s ++ buf s ++ received [m])%list.
Proof.
  destruct m as [ | [d | ] [t | ]]; simpl.
  - intros H. inversion H; subst. rewrite app_nil_r. reflexivity.
  - destruct s as [b spk ls tk pf mid u sent off nc nx nt nu nn tr].
    unfold flushed. unfold_prims. simpl.
    repeat (case_if; simpl); intros H; inversion H; subst; simpl;
      rewrite ?flushes_app; simpl; rewrite ?app_nil_r, ?concat_app; simpl;
      rewrite ?app_nil_r, ?app_assoc; reflexivity.
  - destruct s as [b spk ls tk pf mid u sent off nc nx nt nu nn tr].
    unfold flushed. unfold_prims. simpl.
    repeat (case_if; simpl); intros H; inversion H; subst; simpl;
      rewrite ?flushes_app; simpl; rewrite ?app_nil_r, ?concat_app; simpl;
      rewrite ?app_nil_r, ?app_assoc; reflexivity.
  - unfold bind.
    destruct (on_text_frame t s) as (Hb & _ & _ & _ & _ & _ & _ & _ & _ & Ht).
    destruct (on_text t s) as [[ [] | e] s']; simpl in *; intros H; inversion H; subst.
    unfold flushed. rewrite Hb, Ht, app_nil_r. reflexivity.
  - intros H. inversion H; subst. rewrite app_nil_r. reflexivity.
Qed.

(** X1.  As long as the receive loop has not ended with an exception, the
    audio handed to [flush_audio] so far followed by the buffer is exactly
    the audio that was flushed and buffered before followed by the bytes of
    the binary frames received since, in order: every flush takes the whole
    buffer, nothing is lost and nothing is handed over twice. *)
Theorem audio_conserved (W : World) (msgs : list message) (s s' : State)
    (r : option unit) :
  receive_loop W msgs s = (Ok r, s') ->
  (flushed s' ++ buf s')%list = (flushed s ++ buf s ++ received msgs)%list.
Proof.
  revert s. induction msgs as [ | m rest IH]; intros s; simpl.
  - intros H. inversion H; subst. rewrite app_nil_r. reflexivity.
  - unfold bind at 1.
    destruct (loop_body W m s) as [[c | e] s1] eqn:E; [ | discriminate].
    pose proof (loop_body_conserves W m c s s1 E) as H1.
    destruct c.
    + intros H. apply IH in H. rewrite H, app_assoc, H1.
      destruct m as [ | [d | ] [t | ]]; simpl in *;
        try (inversion E; fail); rewrite <- ?app_assoc; try reflexivity;
        rewrite ?app_nil_r; reflexivity.
    + intros H. inversion H; subst.
      destruct m as [ | [d | ] [t | ]]; simpl in *; try exact H1.
      * unfold bind in E. destruct (on_bytes W d s) as [[ [] | ] ?]; discriminate.
      * unfold bind in E. destruct (on_bytes W d s) as [[ [] | ] ?]; discriminate.
      * unfold bind in E. destruct (on_text t s) as [[ [] | ] ?]; discriminate.
      * discriminate.
Qed.

(** A run of two frames around an identity message. *)
Lemma audio_conserved_witness :
  receive_loop calm three_messages (accepted calm) =
    (Ok None, snd (receive_loop calm three_messages (accepted calm))) /\
  (flushed (snd (receive_loop calm three_messages (accepted calm))) ++
   buf (snd (receive_loop calm three_messages (accepted calm))))%list =
  (flushed (accepted calm) ++ buf (accepted calm) ++ received three_messages)%list.
Proof.
  assert (H : receive_loop calm three_messages (accepted calm) =
              (Ok None, snd (receive_loop calm three_messages (accepted calm))))
    by (vm_compute; reflexivity).
  exact (conj H (audio_conserved calm three_messages _ _ _ H)).
Defined.

Lemma on_bytes_no_redis_error W d s : fst (on_bytes W d s) <> Raise RedisError.
Proof.
  destruct s as [b spk ls tk pf mid u sent off nc nx nt nu nn tr].
  unfold_prims. simpl. repeat (case_if; simpl); discriminate.
Qed.

Lemma finally_block_no_redis_error W s : fst (finally_block W s) <> Raise RedisError.
Proof.
  destruct s as [b spk ls tk pf mid u sent off nc nx nt nu nn tr].
  unfold_prims. simpl. repeat (case_if; simpl); discriminate.
Qed.

Lemma on_text_no_redis_error t s : fst (on_text t s) <> Raise RedisError.
Proof.
  destruct t as [[ | b | z | q | str | l | obj] | ]; simpl; unfold_prims; simpl;
    try discriminate.
  repeat (case_if; simpl); try discriminate.
  all: destruct (dict_get_default "payload" (JObj []) obj); simpl;
    repeat (case_if; simpl); discriminate.
Qed.

Lemma loop_body_no_redis_error W m s : fst (loop_body W m s) <> Raise RedisError.
Proof.
  destruct m as [ | [d | ] [t | ]]; simpl; try discriminate.
  - unfold bind. pose proof (on_bytes_no_redis_error W d s) as H.
    destruct (on_bytes W d s) as [[ [] | e] s1]; simpl in *; congruence.
  - unfold bind. pose proof (on_bytes_no_redis_error W d s) as H.
    destruct (on_bytes W d s) as [[ [] | e] s1]; simpl in *; congruence.
  - unfold bind. pose proof (on_text_no_redis_error t s) as H.
    destruct (on_text t s) as [[ [] | e] s1]; simpl in *; congruence.
Qed.

Lemma receive_loop_no_redis_error W msgs :
  forall s, fst (receive_loop W msgs s) <> Raise RedisError.
Proof.
  induction msgs as [ | m rest IH]; intros s; simpl; [discriminate | ].
  unfold bind. pose proof (loop_body_no_redis_error W m s) as H.
  destruct (loop_body W m s) as [[[ | ] | e] s1]; simpl in *;
    [apply IH | discriminate | congruence].
Qed.

(** X2.  Whatever Redis does, the handler never ends with a Redis
    exception: both [xadd] calls are inside [try/except Exception]. *)
Theorem redis_failure_never_ends_handler (W : World) (msgs : list message)
    (s : State) :
  fst (serve W msgs s) <> Raised RedisError.
Proof.
  unfold serve. pose proof (receive_loop_no_redis_error W msgs s) as H1.
  destruct (receive_loop W msgs s) as [[[ [] | ] | e] s1]; simpl in *;
    try discriminate;
    pose proof (finally_block_no_redis_error W s1) as H2;
    destruct (finally_block W s1) as [[ [] | e'] s2]; simpl in *;
    try discriminate; congruence.
Qed.

Section BackendAnswers.

Variable W : World.
Hypothesis backend_answers : forall n wav, transcribe W n wav <> None.

Ltac answers_tac :=
  match goal with
  | H : transcribe W ?n ?wav = None |- _ => exfalso; exact (backend_answers n wav H)
  | _ => eexists; reflexivity
  end.


Lemma finally_block_returns s : exists u, fst (finally_block W s) = Ok u.
Proof.
  destruct s as [b spk ls tk pf mid u sent off nc nx nt nu nn tr].
  unfold_prims. simpl. repeat (case_if; simpl); answers_tac.
Qed.




End BackendAnswers.




Lemma finally_block_flushes W s :
  flushes (trace (snd (finally_block W s))) =
  (flushes (trace s) ++ if nonempty (buf s) then [buf s] else [])%list.
Proof.
  destruct s as [b spk ls tk pf mid u sent off nc nx nt nu nn tr].
  unfold_prims. simpl.
  destruct b as [ | x b']; simpl.
  - rewrite flushes_app. reflexivity.
  - repeat (case_if; simpl); rewrite ?flushes_app; simpl;
      rewrite ?app_nil_r, <- ?app_assoc; reflexivity.
Qed.

Lemma serve_raise_outcome W m rest s e s1 :
  loop_body W m s = (Raise e, s1) ->
  serve W (m :: rest) s = serve W [m] s /\
  (exists e', fst (serve W [m] s) = Raised e') /\
  flushes (trace (snd (serve W [m] s))) =
  (flushes (trace s1) ++ if nonempty (buf s1) then [buf s1] else [])%list.
Proof.
  intros H.
  rewrite (serve_raise W m rest _ _ _ H), (serve_raise W m [] _ _ _ H).
  split; [reflexivity | ].
  pose proof (finally_block_flushes W s1) as Hf.
  destruct (finally_block W s1) as [[ [] | e'] s2]; simpl in *;
    (split; [eexists; reflexivity | exact Hf]).
Qed.

(** X4.  A text frame that is not valid JSON is skipped.  A text frame
    whose JSON is not an object (null, a number, a boolean, a string, a
    list) raises [TypeError] or [AttributeError], which the handler of
    [JSONDecodeError] does not catch: the state is left as it was, no later
    message is processed, the teardown flushes the buffer if it is not empty,
    and the handler ends with an exception. *)
Theorem non_object_json_ends_handler (W : World) (rest : list message) (s : State) :
  serve W (Receive None (Some None) :: rest) s = serve W rest s /\
  forall j,
    is_object j = false ->
    let m := Receive None (Some (Some j)) in
    (loop_body W m s = (Raise AttributeError, s) \/
     loop_body W m s = (Raise TypeError, s)) /\
    serve W (m :: rest) s = serve W [m] s /\
    (exists e, fst (serve W [m] s) = Raised e) /\
    flushes (trace (snd (serve W [m] s))) =
    (flushes (trace s) ++ if nonempty (buf s) then [buf s] else [])%list.
Proof.
  split; [reflexivity | ].
  intros j Hj m.
  assert (H : loop_body W m s = (Raise AttributeError, s) \/
              loop_body W m s = (Raise TypeError, s)).
  { destruct j; simpl in Hj; try discriminate; subst m; simpl;
      unfold bind, raise; simpl; auto. }
  split; [exact H | ].
  destruct H as [H | H]; exact (serve_raise_outcome W m rest s _ s H).
Qed.

(** A text frame holding an empty list. *)
Lemma non_object_json_ends_handler_witness :
  is_object (JArr []) = false /\
  serve calm (Receive None (Some (Some (JArr []))) :: three_messages) (accepted calm) =
  serve calm [Receive None (Some (Some (JArr [])))] (accepted calm) /\
  exists e, fst (serve calm [Receive None (Some (Some (JArr [])))] (accepted calm)) =
            Raised e.
Proof.
  assert (H : is_object (JArr []) = false) by reflexivity.
  destruct (proj2 (non_object_json_ends_handler calm three_messages (accepted calm))
              (JArr []) H) as (_ & A & B & _).
  exact (conj H (conj A B)).
Defined.

(** X5.  A speaker_activity message whose payload is present and not an
    object raises [AttributeError] at [payload_event.get]: the state is left
    as it was, no later message is processed and the handler ends with an
    exception. *)
Theorem speaker_payload_not_object_ends_handler (W : World)
    (obj : list (string * json)) (rest : list message) (s : State) :
  has_key "token" obj && has_key "platform" obj && has_key "meeting_id" obj = false ->
  py_eq (dict_get "type" obj) (JStr "speaker_activity") = true ->
  is_object (dict_get_default "payload" (JObj []) obj) = false ->
  let m := Receive None (Some (Some (JObj obj))) in
  loop_body W m s = (Raise AttributeError, s) /\
  serve W (m :: rest) s = serve W [m] s /\
  (exists e, fst (serve W [m] s) = Raised e).
Proof.
  intros Hk Ht Hp m.
  assert (H : loop_body W m s = (Raise AttributeError, s)).
  { subst m. simpl. unfold bind at 1. unfold on_text. rewrite Hk, Ht.
    destruct (dict_get_default "payload" (JObj []) obj); simpl in Hp;
      try discriminate; reflexivity. }
  split; [exact H | ].
  destruct (serve_raise_outcome W m rest s _ s H) as (A & B & _). auto.
Qed.

(** A speaker_activity message whose payload is a string. *)
Lemma speaker_payload_not_object_ends_handler_witness :
  has_key "token" bad_payload_obj && has_key "platform" bad_payload_obj
    && has_key "meeting_id" bad_payload_obj = false /\
  py_eq (dict_get "type" bad_payload_obj) (JStr "speaker_activity") = true /\
  is_object (dict_get_default "payload" (JObj []) bad_payload_obj) = false /\
  loop_body calm (Receive None (Some (Some (JObj bad_payload_obj)))) (accepted calm) =
  (Raise AttributeError, accepted calm).
Proof.
  assert (H1 : has_key "token" bad_payload_obj && has_key "platform" bad_payload_obj
                 && has_key "meeting_id" bad_payload_obj = false)
    by (vm_compute; reflexivity).
  assert (H2 : py_eq (dict_get "type" bad_payload_obj) (JStr "speaker_activity") = true)
    by (vm_compute; reflexivity).
  assert (H3 : is_object (dict_get_default "payload" (JObj []) bad_payload_obj) = false)
    by (vm_compute; reflexivity).
  exact (conj H1 (conj H2 (conj H3
           (proj1 (speaker_payload_not_object_ends_handler calm bad_payload_obj []
                     (accepted calm) H1 H2 H3))))).
Defined.

(** X6.  Any JSON object with the keys token, platform and meeting_id is
    an identity message, whatever else it holds: it replaces the three
    fields by its values, keeps the previous uid unless it carries a truthy
    one, and changes neither the speaker nor the trace.  Whether the
    identity is complete afterwards depends on this message alone, so a
    message with a null or empty value makes later flushes no-ops again. *)
Theorem identity_message_replaces (W : World) (obj : list (string * json))
    (s : State) :
  has_key "token" obj && has_key "platform" obj && has_key "meeting_id" obj = true ->
  exists s',
    loop_body W (Receive None (Some (Some (JObj obj)))) s = (Ok Continue, s') /\
    token s' = dict_get "token" obj /\
    platform s' = dict_get "platform" obj /\
    meeting_id s' = dict_get "meeting_id" obj /\
    uid s' = (if truthy (dict_get "uid" obj) then dict_get "uid" obj else uid s) /\
    identity_complete s' =
      truthy (dict_get "token" obj) && truthy (dict_get "platform" obj)
      && truthy (dict_get "meeting_id" obj) /\
    speaker s' = speaker s /\
    trace s' = trace s.
Proof.
  intros Hk. simpl. unfold bind at 1. unfold on_text. rewrite Hk.
  unfold_prims. simpl. eexists. split; [reflexivity | ].
  simpl. repeat split; reflexivity.
Qed.

(** A second identity message that brings a uid. *)
Lemma identity_message_replaces_witness :
  has_key "token" identity_with_uid && has_key "platform" identity_with_uid
    && has_key "meeting_id" identity_with_uid = true /\
  exists s',
    loop_body calm (Receive None (Some (Some (JObj identity_with_uid))))
      (identified calm) = (Ok Continue, s') /\
    uid s' = JStr "conn-7".
Proof.
  assert (H : has_key "token" identity_with_uid && has_key "platform" identity_with_uid
                && has_key "meeting_id" identity_with_uid = true)
    by (vm_compute; reflexivity).
  destruct (identity_message_replaces calm identity_with_uid (identified calm) H)
    as (s' & A & _ & _ & _ & B & _).
  refine (conj H _). exists s'. exact (conj A B).
Defined.

(** X7.  Handling a text frame, whatever it holds and however it ends,
    calls neither Redis nor the backend and leaves the buffer, the flush
    timer, the offset and the flag as they were. *)
Theorem text_frames_make_no_calls (W : World) (t : option json) (s : State) :
  let s' := snd (loop_body W (Receive None (Some t)) s) in
  trace s' = trace s /\ buf s' = buf s /\ last_send s' = last_send s /\
  offset_sec s' = offset_sec s /\ sent_session_start s' = sent_session_start s /\
  n_xadd s' = n_xadd s /\ n_transcribe s' = n_transcribe s.
Proof.
  simpl. unfold bind.
  destruct (on_text_frame t s) as (Hb & Hl & Hs & Ho & _ & Hx & Hn & _ & _ & Ht).
  destruct (on_text t s) as [[ [] | e] s1]; simpl in *; auto 10.
Qed.

Lemma attempted_app tr1 tr2 :
  attempted (tr1 ++ tr2) = (attempted tr1 ++ attempted tr2)%list.
Proof. unfold attempted. apply flat_map_app. Qed.

Section NoRedis.

Variable W : World.
Hypothesis no_handle : redis W = false.

Lemma on_bytes_redis_untouched d s : redis_untouched s (snd (on_bytes W d s)).
Proof.
  destruct s as [b spk ls tk pf mid u sent off nc nx nt nu nn tr].
  unfold redis_untouched. unfold_prims. simpl. rewrite no_handle. simpl.
  repeat (case_if; simpl); rewrite ?attempted_app; simpl; rewrite ?app_nil_r;
    repeat split; reflexivity.
Qed.

Lemma finally_block_redis_untouched s : redis_untouched s (snd (finally_block W s)).
Proof.
  destruct s as [b spk ls tk pf mid u sent off nc nx nt nu nn tr].
  unfold redis_untouched. unfold_prims. simpl. rewrite no_handle. simpl.
  repeat (case_if; simpl); rewrite ?attempted_app; simpl; rewrite ?app_nil_r;
    repeat split; reflexivity.
Qed.

Lemma loop_body_redis_untouched m s : redis_untouched s (snd (loop_body W m s)).
Proof.
  destruct m as [ | [d | ] [t | ]]; simpl; try (repeat split; reflexivity).
  - unfold bind at 1. pose proof (on_bytes_redis_untouched d s) as H.
    destruct (on_bytes W d s) as [[ [] | e] s1]; exact H.
  - unfold bind at 1. pose proof (on_bytes_redis_untouched d s) as H.
    destruct (on_bytes W d s) as [[ [] | e] s1]; exact H.
  - unfold bind at 1.
    destruct (on_text_frame t s) as (_ & _ & Hs & _ & _ & Hx & _ & _ & _ & Ht).
    destruct (on_text t s) as [[ [] | e] s1]; simpl in *;
      unfold redis_untouched; rewrite Hs, Hx, Ht; auto.
Qed.

Lemma serve_redis_untouched msgs s : redis_untouched s (snd (serve W msgs s)).
Proof.
  apply serve_lift with (P := fun _ => True).
  - intros; repeat split; reflexivity.
  - unfold redis_untouched. intros s1 s2 s3 (A1 & B1 & C1) (A2 & B2 & C2).
    repeat split; congruence.
  - intros; apply loop_body_redis_untouched.
  - apply finally_block_redis_untouched.
  - apply Forall_forall; auto.
Qed.

End NoRedis.

(** X8.  When the module-level Redis handle is [None], no run calls
    [xadd] and the flag is never set; a flush with audio and a complete
    identity still calls the backend, and when that returns it advances the
    offset by the chunk length. *)
Theorem nothing_published_without_redis (W : World) :
  redis W = false ->
  (forall msgs,
     let s' := snd (ws_proxy W msgs) in
     attempted (trace s') = [] /\ n_xadd s' = 0%nat /\ sent_session_start s' = false) /\
  (forall a sp o s text,
     nonempty a = true -> identity_complete s = true ->
     transcribe W (n_transcribe s) (wave_write W a) = Some text ->
     let r := flush_audio W a sp o s in
     fst r = Ok (o + CHUNK_SECONDS W)%Q /\
     trace (snd r) =
     (trace s ++
      [EvFlush a; EvTranscribe (MODEL W) (wave_write W a) (Some text);
       EvLogText sp text])%list).
Proof.
  intros Hr. split.
  - intros msgs. unfold ws_proxy.
    destruct (serve_redis_untouched W Hr msgs (accepted W)) as (A & B & C).
    simpl in *. auto.
  - intros a sp o s text Ha Hid Hb.
    apply identity_complete_split in Hid as (Ht & Hp & Hm).
    destruct s as [b spk ls tk pf mid u sent off nc nx nt nu nn tr]. simpl in *.
    unfold_prims. simpl. rewrite Ha, Ht, Hp, Hm, Hr. simpl. rewrite Hb. simpl.
    destruct (truthy u); simpl; rewrite <- ?app_assoc; split; reflexivity.
Qed.

(** A run without the Redis handle. *)
Lemma nothing_published_without_redis_witness :
  redis no_redis = false /\
  attempted (trace (snd (ws_proxy no_redis (three_messages ++ [Disconnect])))) = [].
Proof.
  assert (H : redis no_redis = false) by reflexivity.
  exact (conj H (proj1 (proj1 (nothing_published_without_redis no_redis H)
                          (three_messages ++ [Disconnect])%list))).
Defined.

Lemma answered_app tr1 tr2 : answered (tr1 ++ tr2) = (answered tr1 + answered tr2)%nat.
Proof. unfold answered. rewrite filter_app, length_app. reflexivity. Qed.

Ltac counts_tac :=
  unfold timeline_counts; simpl; rewrite ?answered_app; unfold answered; simpl;
  first [ exists 0%nat; split; [lia | reflexivity]
        | exists 1%nat; split; [lia | reflexivity] ].

Lemma on_bytes_timeline_counts W d s : timeline_counts W s (snd (on_bytes W d s)).
Proof.
  destruct s as [b spk ls tk pf mid u sent off nc nx nt nu nn tr].
  unfold_prims. simpl. repeat (case_if; simpl); counts_tac.
Qed.

Lemma finally_block_timeline_counts W s : timeline_counts W s (snd (finally_block W s)).
Proof.
  destruct s as [b spk ls tk pf mid u sent off nc nx nt nu nn tr].
  unfold_prims. simpl. repeat (case_if; simpl); counts_tac.
Qed.

Lemma timeline_counts_refl W s : timeline_counts W s s.
Proof. exists 0%nat. split; [lia | reflexivity]. Qed.

Lemma timeline_counts_trans W s1 s2 s3 :
  timeline_counts W s1 s2 -> timeline_counts W s2 s3 -> timeline_counts W s1 s3.
Proof.
  intros (k1 & A1 & B1) (k2 & A2 & B2). exists (k2 + k1)%nat. split; [lia | ].
  rewrite B2, B1. symmetry. apply Nat.iter_add.
Qed.

Lemma loop_body_timeline_counts W m s : timeline_counts W s (snd (loop_body W m s)).
Proof.
  destruct m as [ | [d | ] [t | ]]; simpl; try apply timeline_counts_refl.
  - unfold bind at 1. pose proof (on_bytes_timeline_counts W d s) as H.
    destruct (on_bytes W d s) as [[ [] | e] s1]; exact H.
  - unfold bind at 1. pose proof (on_bytes_timeline_counts W d s) as H.
    destruct (on_bytes W d s) as [[ [] | e] s1]; exact H.
  - unfold bind at 1.
    destruct (on_text_frame t s) as (_ & _ & _ & Ho & _ & _ & _ & _ & _ & Ht).
    destruct (on_text t s) as [[ [] | e] s1]; simpl in *;
      exists 0%nat; rewrite Ho, Ht; (split; [lia | reflexivity]).
Qed.

(** X9.  After any run the offset is what results from 0 by adding
    [CHUNK_SECONDS] once for each backend call that returned, one addition
    after the other as the code makes them: a flush that does nothing or
    whose backend call raises takes no room on the timeline.  The equality
    is that of the nested sums; no law of the addition is used, so it is
    the same statement for the float addition of the source. *)
Theorem timeline_counts_answered_calls (W : World) (msgs : list message) :
  let s' := snd (ws_proxy W msgs) in
  offset_sec s' = Nat.iter (answered (trace s')) (add_chunk W) 0%Q.
Proof.
  simpl. unfold ws_proxy.
  assert (H : timeline_counts W (accepted W) (snd (serve W msgs (accepted W)))).
  { apply serve_lift with (P := fun _ => True).
    - apply timeline_counts_refl.
    - apply timeline_counts_trans.
    - intros; apply loop_body_timeline_counts.
    - apply finally_block_timeline_counts.
    - apply Forall_forall; auto. }
  destruct H as (k & A & B). simpl in A, B. rewrite A, B. reflexivity.
Qed.

Lemma abut_app from ps qs :
  abut from (ps ++ qs) =
  match abut from ps with
  | Some b => abut b qs
  | None => None
  end.
Proof.
  revert from. induction ps as [ | p ps IH]; intros from; simpl; [reflexivity | ].
  destruct (py_eq (segment_start p) from); [apply IH | reflexivity].
Qed.

Lemma transcription_attempts_app tr1 tr2 :
  transcription_attempts (tr1 ++ tr2) =
  (transcription_attempts tr1 ++ transcription_attempts tr2)%list.
Proof. unfold transcription_attempts. rewrite attempted_app. apply filter_app. Qed.

Lemma timeline_tiled_refl s : timeline_tiled s s.
Proof. exists []. split; [symmetry; apply app_nil_r | reflexivity]. Qed.

Lemma timeline_tiled_trans s1 s2 s3 :
  timeline_tiled s1 s2 -> timeline_tiled s2 s3 -> timeline_tiled s1 s3.
Proof.
  intros (ps & A1 & B1) (qs & A2 & B2). exists (ps ++ qs)%list. split.
  - rewrite A2, A1, app_assoc. reflexivity.
  - rewrite abut_app, B1. exact B2.
Qed.

Section Tiling.

Variable W : World.
Hypothesis handle : redis W = true.

Local Arguments fmt3 : simpl never.

Ltac tiled_tac :=
  unfold timeline_tiled; simpl; rewrite ?transcription_attempts_app;
  match goal with
  | |- context [transcription_attempts ?tr ++ _] =>
      is_var tr; generalize (transcription_attempts tr); intros T
  | _ => idtac
  end;
  unfold transcription_attempts, attempted; simpl;
  rewrite <- ?app_assoc; simpl;
  eexists; (split; [try reflexivity; symmetry; apply app_nil_r | ]);
  simpl; rewrite ?String.eqb_refl; reflexivity.

Lemma on_bytes_timeline_tiled d s : timeline_tiled s (snd (on_bytes W d s)).
Proof.
  destruct s as [b spk ls tk pf mid u sent off nc nx nt nu nn tr].
  unfold_prims. simpl. rewrite handle. simpl.
  repeat (case_if; simpl); tiled_tac.
Qed.

Lemma finally_block_timeline_tiled s : timeline_tiled s (snd (finally_block W s)).
Proof.
  destruct s as [b spk ls tk pf mid u sent off nc nx nt nu nn tr].
  unfold_prims. simpl. rewrite handle. simpl.
  repeat (case_if; simpl); tiled_tac.
Qed.

Lemma loop_body_timeline_tiled m s : timeline_tiled s (snd (loop_body W m s)).
Proof.
  destruct m as [ | [d | ] [t | ]]; simpl; try apply timeline_tiled_refl.
  - unfold bind at 1. pose proof (on_bytes_timeline_tiled d s) as H.
    destruct (on_bytes W d s) as [[ [] | e] s1]; exact H.
  - unfold bind at 1. pose proof (on_bytes_timeline_tiled d s) as H.
    destruct (on_bytes W d s) as [[ [] | e] s1]; exact H.
  - unfold bind at 1.
    destruct (on_text_frame t s) as (_ & _ & _ & Ho & _ & _ & _ & _ & _ & Ht).
    destruct (on_text t s) as [[ [] | e] s1]; simpl in *;
      exists []; rewrite Ho, Ht; (split; [symmetry; apply app_nil_r | reflexivity]).
Qed.

Lemma serve_timeline_tiled msgs s : timeline_tiled s (snd (serve W msgs s)).
Proof.
  apply serve_lift with (P := fun _ => True).
  - apply timeline_tiled_refl.
  - apply timeline_tiled_trans.
  - intros; apply loop_body_timeline_tiled.
  - apply finally_block_timeline_tiled.
  - apply Forall_forall; auto.
Qed.

End Tiling.

(** X10.  With the Redis handle in place, the transcription payloads
    handed to [xadd] tile the timeline: the first segment starts at
    "0.000", each one starts at the rendered end of the one before, and the
    last one ends at the rendered current offset. *)
Theorem transcription_segments_abut (W : World) (msgs : list message) :
  redis W = true ->
  let s' := snd (ws_proxy W msgs) in
  abut (JStr "0.000") (transcription_attempts (trace s')) =
  Some (JStr (fmt3 (offset_sec s'))).
Proof.
  intros Hr. simpl. unfold ws_proxy.
  destruct (serve_timeline_tiled W Hr msgs (accepted W)) as (ps & A & B).
  rewrite A. exact B.
Qed.

(** A run with two effective flushes. *)
Lemma transcription_segments_abut_witness :
  redis calm = true /\
  abut (JStr "0.000")
    (transcription_attempts
       (trace (snd (ws_proxy calm (three_messages ++ [frame [x05]; Disconnect]))))) =
  Some (JStr (fmt3 (offset_sec
                      (snd (ws_proxy calm (three_messages ++ [frame [x05]; Disconnect])))))).
Proof.
  assert (H : redis calm = true) by reflexivity.
  exact (conj H (transcription_segments_abut calm _ H)).
Defined.

Lemma backend_fed_refl W s : backend_fed_by_flushes W s s.
Proof.
  exists []. split; [symmetry; apply app_nil_r | ]. split; [simpl; lia | constructor].
Qed.

Lemma backend_calls_app tr1 tr2 :
  backend_calls (tr1 ++ tr2) = (backend_calls tr1 ++ backend_calls tr2)%list.
Proof. unfold backend_calls. apply flat_map_app. Qed.

Lemma backend_fed_trans W s1 s2 s3 :
  backend_fed_by_flushes W s1 s2 -> backend_fed_by_flushes W s2 s3 ->
  backend_fed_by_flushes W s1 s3.
Proof.
  intros (t1 & A1 & B1 & C1) (t2 & A2 & B2 & C2). exists (t1 ++ t2)%list.
  split; [rewrite A2, A1, app_assoc; reflexivity | ].
  rewrite backend_calls_app, flushes_app, !length_app. split; [lia | ].
  apply Forall_app. split.
  - eapply Forall_impl; [ | exact C1]. intros wav (a & Ha & Hn & E).
    exists a. repeat split; auto. apply in_or_app; auto.
  - eapply Forall_impl; [ | exact C2]. intros wav (a & Ha & Hn & E).
    exists a. repeat split; auto. apply in_or_app; auto.
Qed.

Lemma nonempty_not_nil {A} (l : list A) : nonempty l = true -> l <> [].
Proof. destruct l; [discriminate | discriminate]. Qed.

Ltac fed_tac :=
  unfold backend_fed_by_flushes; simpl;
  eexists; (split; [rewrite <- ?app_assoc; simpl; try reflexivity;
                    symmetry; apply app_nil_r | ]);
  simpl; (split; [lia | ]);
  repeat constructor;
  eexists; (split; [left; reflexivity | split; [ | reflexivity]]);
  apply nonempty_not_nil; assumption.

Lemma on_bytes_backend_fed W d s : backend_fed_by_flushes W s (snd (on_bytes W d s)).
Proof.
  destruct s as [b spk ls tk pf mid u sent off nc nx nt nu nn tr].
  unfold_prims. simpl.
  destruct (Qle_bool (CHUNK_SECONDS W) (loop_time W nc - ls)); simpl.
  2:{ exists []. split; [symmetry; apply app_nil_r | ]. split; [simpl; lia | constructor]. }
  destruct (nonempty (b ++ d)) eqn:Hne; simpl.
  2:{ exists [EvFlush (b ++ d)]. split; [reflexivity | ].
      split; [simpl; lia | constructor]. }
  repeat (case_if; simpl); fed_tac.
Qed.

Lemma finally_block_backend_fed W s :
  backend_fed_by_flushes W s (snd (finally_block W s)).
Proof.
  destruct s as [b spk ls tk pf mid u sent off nc nx nt nu nn tr].
  unfold_prims. simpl.
  destruct (nonempty b) eqn:Hne; simpl.
  2:{ exists [EvClose]. split; [reflexivity | ]. split; [simpl; lia | constructor]. }
  rewrite ?Hne. simpl. repeat (case_if; simpl); fed_tac.
Qed.

Lemma loop_body_backend_fed W m s :
  backend_fed_by_flushes W s (snd (loop_body W m s)).
Proof.
  destruct m as [ | [d | ] [t | ]]; simpl; try apply backend_fed_refl.
  - unfold bind at 1. pose proof (on_bytes_backend_fed W d s) as H.
    destruct (on_bytes W d s) as [[ [] | e] s1]; exact H.
  - unfold bind at 1. pose proof (on_bytes_backend_fed W d s) as H.
    destruct (on_bytes W d s) as [[ [] | e] s1]; exact H.
  - unfold bind at 1.
    destruct (on_text_frame t s) as (_ & _ & _ & _ & _ & _ & _ & _ & _ & Ht).
    destruct (on_text t s) as [[ [] | e] s1]; simpl in *;
      exists []; rewrite Ht;
      (split; [symmetry; apply app_nil_r | split; [simpl; lia | constructor]]).
Qed.

(** X11.  The backend is called at most once per call of [flush_audio],
    and every payload it receives is the converted audio of a flush whose
    audio is not empty. *)
Theorem backend_receives_flushed_audio (W : World) (msgs : list message) :
  let tr := trace (snd (ws_proxy W msgs)) in
  (List.length (backend_calls tr) <= List.length (flushes tr))%nat /\
  Forall (fun wav => exists a, In a (flushes tr) /\ a <> [] /\ wav = wave_write W a)
    (backend_calls tr).
Proof.
  simpl. unfold ws_proxy.
  assert (H : backend_fed_by_flushes W (accepted W) (snd (serve W msgs (accepted W)))).
  { apply serve_lift with (P := fun _ => True).
    - apply backend_fed_refl.
    - apply backend_fed_trans.
    - intros; apply loop_body_backend_fed.
    - apply finally_block_backend_fed.
    - apply Forall_forall; auto. }
  destruct H as (tl & A & B & C). simpl in A. rewrite A. auto.
Qed.

(** * The standalone Whisper server: properties *)

Import OpenAIWhisperServer.
Import ServerRuns.
Local Open Scope server_scope.

Ltac srv_prims :=
  unfold on_message, transcribe_audio, named_temporary_file, transcriptions_create,
    os_unlink, xadd, send, time, OpenAIWhisperServer.try_except,
    OpenAIWhisperServer.bind, OpenAIWhisperServer.ret.

Lemma lookup_fresh path data fs :
  Forall (fun f => (fst f < path)%nat) fs ->
  lookup path (fs ++ [(path, data)]) = Some data.
Proof.
  induction 1 as [ | [p d] fs Hp _ IH]; simpl.
  - rewrite Nat.eqb_refl. reflexivity.
  - simpl in Hp. destruct (Nat.eqb_spec p path); [lia | exact IH].
Qed.

Lemma remove_file_fresh path data fs :
  Forall (fun f => (fst f < path)%nat) fs ->
  remove_file path (fs ++ [(path, data)]) = fs.
Proof.
  unfold remove_file. induction 1 as [ | [p d] fs Hp _ IH]; simpl.
  - rewrite Nat.eqb_refl. reflexivity.
  - simpl in Hp. destruct (Nat.eqb_spec p path); [lia | ]. simpl. rewrite IH.
    reflexivity.
Qed.

(** X12.  [transcribe_audio] returns the empty string when the temporary
    file cannot be created (no API call is made) and when the API call
    raises (the temporary file is left behind); when the API call returns
    it returns the transcript and has unlinked the file. *)
Theorem transcribe_audio_outcomes (W : Env) (audio_data : list byte) (s : Sys) :
  paths_fresh s ->
  let path := n_tmp s in
  (tmp_ok W path = false ->
   transcribe_audio W audio_data s =
   (Done [],
    mkSys (files s) (n_time s) (S path) (n_create s) (n_xadd s) (n_send s)
      (calls s ++ [TempFile path audio_data false]))) /\
  (tmp_ok W path = true -> whisper W (n_create s) audio_data = None ->
   transcribe_audio W audio_data s =
   (Done [],
    mkSys (files s ++ [(path, audio_data)]) (n_time s) (S path) (S (n_create s))
      (n_xadd s) (n_send s)
      (calls s ++ [TempFile path audio_data true;
                   Create (model W) path audio_data None]))) /\
  (forall transcript,
   tmp_ok W path = true -> whisper W (n_create s) audio_data = Some transcript ->
   transcribe_audio W audio_data s =
   (Done transcript,
    mkSys (files s) (n_time s) (S path) (S (n_create s)) (n_xadd s) (n_send s)
      (calls s ++ [TempFile path audio_data true;
                   Create (model W) path audio_data (Some transcript);
                   Unlink path]))).
Proof.
  intros Hf path. subst path. unfold paths_fresh in Hf.
  destruct s as [fs nt np nc nx ns cs]. simpl in *.
  repeat split.
  - intros Ht. srv_prims. simpl. rewrite Ht. reflexivity.
  - intros Ht Hw. srv_prims. simpl. rewrite Ht. simpl.
    rewrite (lookup_fresh np audio_data fs Hf). rewrite Hw. simpl.
    rewrite <- app_assoc. reflexivity.
  - intros transcript Ht Hw. srv_prims. simpl. rewrite Ht. simpl.
    rewrite (lookup_fresh np audio_data fs Hf). rewrite Hw. simpl.
    rewrite (remove_file_fresh np audio_data fs Hf), <- !app_assoc. reflexivity.
Qed.

(** A first call that the API rejects. *)
Lemma transcribe_audio_outcomes_witness :
  paths_fresh started /\
  tmp_ok (demo_env at_first never) (n_tmp started) = true /\
  whisper (demo_env at_first never) (n_create started) [x01; x02] = None /\
  transcribe_audio (demo_env at_first never) [x01; x02] started =
  (Done [],
   mkSys [(0%nat, [x01; x02])] 0 1 1 0 0
     [TempFile 0 [x01; x02] true; Create "whisper-1" 0 [x01; x02] None]).
Proof.
  assert (H0 : paths_fresh started) by constructor.
  assert (H1 : tmp_ok (demo_env at_first never) (n_tmp started) = true) by reflexivity.
  assert (H2 : whisper (demo_env at_first never) (n_create started) [x01; x02] = None)
    by reflexivity.
  exact (conj H0 (conj H1 (conj H2
           (proj1 (proj2 (transcribe_audio_outcomes (demo_env at_first never)
                            [x01; x02] started H0)) H1 H2)))).
Defined.


Lemma paths_fresh_next fs n :
  Forall (fun f : nat * list byte => (fst f < n)%nat) fs ->
  Forall (fun f : nat * list byte => (fst f < S n)%nat) fs.
Proof. apply Forall_impl. intros f H. lia. Qed.

Lemma nonempty_strip t : nonempty (strip t) = true -> strip t <> [].
Proof. destruct (strip t); [discriminate | discriminate]. Qed.

Ltac served_tac :=
  simpl;
  (split; [first [ apply paths_fresh_next; assumption
                 | rewrite Forall_app; split;
                   [apply paths_fresh_next; assumption
                   | repeat constructor; simpl; lia] ] | ]);
  eexists; (split; [rewrite <- ?app_assoc; simpl; reflexivity | ]);
  simpl; rewrite ?map_app; simpl; rewrite ?app_nil_r;
  (split; [reflexivity | ]); (split; [reflexivity | ]);
  repeat constructor; simpl; auto using nonempty_strip.

Lemma on_message_served W cid m s : served cid s (snd (on_message W cid m s)).
Proof.
  intros Hf. destruct m as [data | parsed].
  - unfold on_message, OpenAIWhisperServer.bind.
    destruct (transcribe_audio_outcomes W data s Hf) as (H1 & H2 & H3).
    unfold paths_fresh in *.
    destruct (tmp_ok W (n_tmp s)) eqn:Ht.
    + destruct (whisper W (n_create s) data) as [t | ] eqn:Hw.
      * rewrite (H3 t eq_refl eq_refl). clear H1 H2 H3.
        destruct (nonempty (strip t)) eqn:Hs; srv_prims; simpl;
          repeat (case_if; simpl); served_tac.
      * rewrite (H2 eq_refl eq_refl). clear H1 H2 H3. simpl. served_tac.
    + rewrite (H1 eq_refl). clear H1 H2 H3. simpl. served_tac.
  - simpl. split; [exact Hf | ]. exists []. rewrite !app_nil_r.
    repeat split; constructor.
Qed.

Lemma served_refl cid s : served cid s s.
Proof.
  intros Hf. split; [exact Hf | ]. exists []. rewrite !app_nil_r.
  repeat split; constructor.
Qed.

Lemma failed_paths_app c1 c2 :
  failed_paths (c1 ++ c2) = (failed_paths c1 ++ failed_paths c2)%list.
Proof. unfold failed_paths. apply flat_map_app. Qed.

Lemma replies_app c1 c2 : replies (c1 ++ c2) = (replies c1 ++ replies c2)%list.
Proof. unfold replies. apply flat_map_app. Qed.

Lemma appended_app c1 c2 : appended (c1 ++ c2) = (appended c1 ++ appended c2)%list.
Proof. unfold appended. apply flat_map_app. Qed.

Lemma xadd_attempts_app c1 c2 :
  xadd_attempts (c1 ++ c2) = (xadd_attempts c1 ++ xadd_attempts c2)%list.
Proof. unfold xadd_attempts. apply flat_map_app. Qed.

Lemma served_trans cid s1 s2 s3 :
  served cid s1 s2 -> served cid s2 s3 -> served cid s1 s3.
Proof.
  intros H12 H23 Hf. destruct (H12 Hf) as (Hf2 & t1 & A1 & B1 & C1 & D1).
  destruct (H23 Hf2) as (Hf3 & t2 & A2 & B2 & C2 & D2).
  split; [exact Hf3 | ]. exists (t1 ++ t2)%list.
  rewrite A2, A1, B2, B1, failed_paths_app, replies_app, appended_app,
    xadd_attempts_app, !map_app, C1, C2, !app_assoc.
  repeat split; try reflexivity. apply Forall_app. auto.
Qed.

Lemma each_message_served W cid msgs :
  forall s, served cid s (snd (each_message W cid msgs s)).
Proof.
  induction msgs as [ | m rest IH]; intros s; simpl.
  - apply served_refl.
  - unfold OpenAIWhisperServer.bind.
    pose proof (on_message_served W cid m s) as H.
    destruct (on_message W cid m s) as [[ [] | e] s1]; simpl in *;
      [eapply served_trans; [exact H | apply IH] | exact H].
Qed.

Lemma handle_client_served W msgs :
  served ("client_" ++ int_str (time_time W 0%nat)) started
    (snd (handle_client W msgs started)).
Proof.
  unfold handle_client, OpenAIWhisperServer.bind, time. simpl.
  set (s0 := mkSys [] 1 0 0 0 0 []).
  pose proof (each_message_served W ("client_" ++ int_str (time_time W 0%nat)) msgs s0)
    as H.
  unfold OpenAIWhisperServer.try_except.
  destruct (each_message W _ msgs s0) as [[ [] | e] s1]; simpl in *; exact H.
Qed.

(** X13.  [handle_client] always returns: whatever fails inside the loop is
    caught by its handlers.  [transcribe_audio] never raises either. *)
Theorem handle_client_returns (W : Env) (msgs : list message) (s : Sys) :
  fst (handle_client W msgs s) = Done tt /\
  forall data, fst (transcribe_audio W data s) <> Fail APIError /\
               exists t, fst (transcribe_audio W data s) = Done t.
Proof.
  split.
  - unfold handle_client, OpenAIWhisperServer.bind, time,
      OpenAIWhisperServer.try_except. simpl.
    destruct (each_message W _ msgs _) as [[ [] | e] s1]; reflexivity.
  - intros data. srv_prims. simpl.
    repeat (case_if; simpl); split; try discriminate; eexists; reflexivity.
Qed.

(** X14.  After a client has been served, the temporary file of every API
    call that raised still exists: [transcribe_audio] removes a file only
    after its call has returned, so each failed call leaves its file
    behind. *)
Theorem failed_calls_leave_their_files (W : Env) (msgs : list message) :
  let s' := snd (handle_client W msgs started) in
  forall path, In path (failed_paths (calls s')) -> In path (map fst (files s')).
Proof.
  simpl. destruct (handle_client_served W msgs) as (_ & tl & A & B & _).
  - constructor.
  - intros path. rewrite A, B. simpl. auto.
Qed.

(** A client whose first audio message the API rejects. *)
Lemma failed_calls_leave_their_files_witness :
  In 0%nat
    (failed_paths
       (calls (snd (handle_client (demo_env at_first never) [Binary [x01; x02]] started)))) /\
  In 0%nat
    (map fst
       (files (snd (handle_client (demo_env at_first never) [Binary [x01; x02]] started)))).
Proof.
  assert (H : In 0%nat
                (failed_paths
                   (calls (snd (handle_client (demo_env at_first never)
                                  [Binary [x01; x02]] started)))))
    by (vm_compute; left; reflexivity).
  exact (conj H (failed_calls_leave_their_files (demo_env at_first never)
                   [Binary [x01; x02]] 0%nat H)).
Defined.

(** X15.  The texts of the replies sent to the client are the texts of the
    entries appended to the stream, in the same order: a reply is sent only
    after its entry was appended, and every appended entry is followed by
    the attempt to reply. *)
Theorem replies_repeat_appended_entries (W : Env) (msgs : list message) :
  let s' := snd (handle_client W msgs started) in
  map rs_text (replies (calls s')) = map sd_text (appended (calls s')).
Proof.
  simpl. destruct (handle_client_served W msgs) as (_ & tl & A & _ & C & _).
  - constructor.
  - rewrite A. exact C.
Qed.

(** X16.  Every entry handed to the stream has a transcript that is not
    blank, language "auto", confidence 1 and the client id made from the
    clock reading at the start of the connection. *)
Theorem stream_entries_well_formed (W : Env) (msgs : list message) :
  let s' := snd (handle_client W msgs started) in
  Forall (record_ok ("client_" ++ int_str (time_time W 0%nat)))
    (xadd_attempts (calls s')).
Proof.
  simpl. destruct (handle_client_served W msgs) as (_ & tl & A & _ & _ & D).
  - constructor.
  - rewrite A. exact D.
Qed.

Lemma lstrip_blank t : forallb is_space t = true -> lstrip t = [].
Proof.
  induction t as [ | c t IH]; simpl; [reflexivity | ].
  intros H. apply andb_true_iff in H as [Hc Ht]. rewrite Hc. auto.
Qed.

Lemma strip_blank t : forallb is_space t = true -> strip t = [].
Proof. intros H. unfold strip. rewrite (lstrip_blank t H). reflexivity. Qed.

(** X17.  A binary message whose API call raises, or whose transcript is
    made of white space only, leads to no stream entry and no reply, and the
    loop goes on with the next message. *)
Theorem unusable_transcript_is_skipped (W : Env) (cid : string) (data : list byte)
    (rest : list message) (s : Sys) :
  paths_fresh s ->
  tmp_ok W (n_tmp s) = true ->
  (whisper W (n_create s) data = None ->
   each_message W cid (Binary data :: rest) s =
   each_message W cid rest
     (mkSys (files s ++ [(n_tmp s, data)]) (n_time s) (S (n_tmp s)) (S (n_create s))
        (n_xadd s) (n_send s)
        (calls s ++ [TempFile (n_tmp s) data true;
                     Create (model W) (n_tmp s) data None]))) /\
  (forall t,
   whisper W (n_create s) data = Some t -> forallb is_space t = true ->
   each_message W cid (Binary data :: rest) s =
   each_message W cid rest
     (mkSys (files s) (n_time s) (S (n_tmp s)) (S (n_create s)) (n_xadd s) (n_send s)
        (calls s ++ [TempFile (n_tmp s) data true;
                     Create (model W) (n_tmp s) data (Some t);
                     Unlink (n_tmp s)]))).
Proof.
  intros Hf Ht. destruct (transcribe_audio_outcomes W data s Hf) as (_ & H2 & H3).
  split.
  - intros Hw. simpl. unfold OpenAIWhisperServer.bind at 1 2.
    rewrite (H2 Ht Hw). reflexivity.
  - intros t Hw Hb. simpl. unfold OpenAIWhisperServer.bind at 1 2.
    rewrite (H3 t Ht Hw), (strip_blank t Hb). reflexivity.
Qed.

(** A rejected message followed by another one. *)
Lemma unusable_transcript_is_skipped_witness :
  paths_fresh started /\
  tmp_ok (demo_env at_first never) (n_tmp started) = true /\
  whisper (demo_env at_first never) (n_create started) [x01; x02] = None /\
  each_message (demo_env at_first never) "client_0" [Binary [x01; x02]; Binary [x03]]
    started =
  each_message (demo_env at_first never) "client_0" [Binary [x03]]
    (mkSys [(0%nat, [x01; x02])] 0 1 1 0 0
       [TempFile 0 [x01; x02] true; Create "whisper-1" 0 [x01; x02] None]).
Proof.
  assert (H0 : paths_fresh started) by constructor.
  assert (H1 : tmp_ok (demo_env at_first never) (n_tmp started) = true) by reflexivity.
  assert (H2 : whisper (demo_env at_first never) (n_create started) [x01; x02] = None)
    by reflexivity.
  exact (conj H0 (conj H1 (conj H2
           (proj1 (unusable_transcript_is_skipped (demo_env at_first never) "client_0"
                     [x01; x02] [Binary [x03]] started H0 H1) H2)))).
Defined.

(** X18.  When [xadd] raises, the loop over the messages ends there: no
    reply is sent for that message and the messages after it are not
    processed. *)
Theorem redis_failure_ends_client (W : Env) (cid : string) (data : list byte)
    (rest : list message) (s : Sys) (t : ustr) :
  paths_fresh s ->
  tmp_ok W (n_tmp s) = true ->
  whisper W (n_create s) data = Some t ->
  nonempty (strip t) = true ->
  redis_ok W (n_xadd s) = false ->
  each_message W cid (Binary data :: rest) s = each_message W cid [Binary data] s /\
  fst (each_message W cid [Binary data] s) = Fail RedisFailure /\
  replies (calls (snd (each_message W cid [Binary data] s))) = replies (calls s).
Proof.
  intros Hf Ht Hw Hs Hr.
  destruct (transcribe_audio_outcomes W data s Hf) as (_ & _ & H3).
  assert (E : exists s1,
            on_message W cid (Binary data) s = (Fail RedisFailure, s1) /\
            replies (calls s1) = replies (calls s)).
  { unfold on_message, OpenAIWhisperServer.bind. rewrite (H3 t Ht Hw), Hs.
    clear H3. srv_prims. simpl. rewrite Hr. simpl.
    eexists. split; [reflexivity | ]. simpl.
    rewrite !replies_app. simpl. rewrite !app_nil_r. reflexivity. }
  destruct E as (s1 & E & Er).
  cbn [each_message]. unfold OpenAIWhisperServer.bind. rewrite E.
  repeat split. exact Er.
Qed.

(** A first message that Redis rejects. *)
Lemma redis_failure_ends_client_witness :
  paths_fresh started /\
  tmp_ok (demo_env never at_first) (n_tmp started) = true /\
  whisper (demo_env never at_first) (n_create started) [x01; x02] = Some [104%N; 105%N] /\
  nonempty (strip [104%N; 105%N]) = true /\
  redis_ok (demo_env never at_first) (n_xadd started) = false /\
  each_message (demo_env never at_first) "client_0" [Binary [x01; x02]; Binary [x03]]
    started =
  each_message (demo_env never at_first) "client_0" [Binary [x01; x02]] started /\
  fst (each_message (demo_env never at_first) "client_0" [Binary [x01; x02]] started) =
  Fail RedisFailure.
Proof.
  assert (H0 : paths_fresh started) by constructor.
  assert (H1 : tmp_ok (demo_env never at_first) (n_tmp started) = true) by reflexivity.
  assert (H2 : whisper (demo_env never at_first) (n_create started) [x01; x02] =
               Some [104%N; 105%N]) by reflexivity.
  assert (H3 : nonempty (strip [104%N; 105%N]) = true) by (vm_compute; reflexivity).
  assert (H4 : redis_ok (demo_env never at_first) (n_xadd started) = false)
    by reflexivity.
  destruct (redis_failure_ends_client (demo_env never at_first) "client_0" [x01; x02]
              [Binary [x03]] started [104%N; 105%N] H0 H1 H2 H3 H4) as (A & B & _).
  exact (conj H0 (conj H1 (conj H2 (conj H3 (conj H4 (conj A B)))))).
Defined.

(** X19.  A binary message with a usable transcript and Redis answering
    makes these calls in this order: create the temporary file, call the
    API, unlink the file, append the entry stamped with one clock reading,
    send the reply stamped with the next one; the message ends with
    [ConnectionClosed] exactly when sending fails. *)
Theorem transcript_appended_then_sent (W : Env) (cid : string) (data : list byte)
    (s : Sys) (t : ustr) :
  paths_fresh s ->
  tmp_ok W (n_tmp s) = true ->
  whisper W (n_create s) data = Some t ->
  nonempty (strip t) = true ->
  redis_ok W (n_xadd s) = true ->
  let r := on_message W cid (Binary data) s in
  fst r = (if send_ok W (n_send s) then Done tt else Fail ConnectionClosed) /\
  calls (snd r) =
  (calls s ++
   [TempFile (n_tmp s) data true;
    Create (model W) (n_tmp s) data (Some t);
    Unlink (n_tmp s);
    Xadd "transcription_segments"
      {| sd_text := t;
         sd_timestamp := time_time W (n_time s);
         sd_client_id := cid;
         sd_language := "auto";
         sd_confidence := 1 |} true;
    Send {| rs_text := t; rs_timestamp := time_time W (S (n_time s)) |}
      (send_ok W (n_send s))])%list /\
  files (snd r) = files s.
Proof.
  intros Hf Ht Hw Hs Hr.
  destruct (transcribe_audio_outcomes W data s Hf) as (_ & _ & H3).
  unfold on_message, OpenAIWhisperServer.bind. rewrite (H3 t Ht Hw), Hs.
  clear H3. srv_prims. simpl. rewrite Hr. simpl.
  destruct (send_ok W (n_send s)); simpl; rewrite <- !app_assoc; simpl;
    split; try reflexivity; split; reflexivity.
Qed.

(** A first message with everything answering. *)
Lemma transcript_appended_then_sent_witness :
  paths_fresh started /\
  tmp_ok (demo_env never never) (n_tmp started) = true /\
  whisper (demo_env never never) (n_create started) [x01; x02] = Some [104%N; 105%N] /\
  nonempty (strip [104%N; 105%N]) = true /\
  redis_ok (demo_env never never) (n_xadd started) = true /\
  files (snd (on_message (demo_env never never) "client_0" (Binary [x01; x02]) started)) =
  files started.
Proof.
  assert (H0 : paths_fresh started) by constructor.
  assert (H1 : tmp_ok (demo_env never never) (n_tmp started) = true) by reflexivity.
  assert (H2 : whisper (demo_env never never) (n_create started) [x01; x02] =
               Some [104%N; 105%N]) by reflexivity.
  assert (H3 : nonempty (strip [104%N; 105%N]) = true) by (vm_compute; reflexivity).
  assert (H4 : redis_ok (demo_env never never) (n_xadd started) = true) by reflexivity.
  destruct (transcript_appended_then_sent (demo_env never never) "client_0" [x01; x02]
              started [104%N; 105%N] H0 H1 H2 H3 H4) as (_ & _ & C).
  exact (conj H0 (conj H1 (conj H2 (conj H3 (conj H4 C))))).
Defined.
